(** * text_to_sql: the SQL safety gate and the gateway around it

    A shallow embedding of [text2sql/services/sql_sanitizer.py],
    [text2sql/services/gemini_client.py] and [text2sql/views.py], and the
    properties of the gate that the design document states.

    Python strings are modelled as lists of characters whose code points lie
    in 0..255 ([ascii]); on that range the character classes below are the
    ones CPython's [str.strip] and the [re] module use for [str] patterns
    ([Py_UNICODE_ISSPACE], [Py_UNICODE_ISDECIMAL], [Py_UNICODE_ISALNUM] and
    the simple lower-case mapping).  Python's [int] is [Z]. *)

From Stdlib Require Import List Bool Ascii String ZArith NArith Lia.
From Stdlib Require Import DecimalString.
Import ListNotations.

Open Scope string_scope.
Open Scope list_scope.

Definition str := list ascii.

Coercion list_ascii_of_string : string >-> list.

(** ** Characters *)

Module Char.

Definition code (c : ascii) : N := N_of_ascii c.

Definition between (lo hi : N) (c : ascii) : bool :=
  ((lo <=? code c) && (code c <=? hi))%N.

Definition code_is (n : N) (c : ascii) : bool := (code c =? n)%N.

(** [Py_UNICODE_ISSPACE]: TAB..CR, FS..US, SPACE, NEL and NBSP. *)
Definition isspace (c : ascii) : bool :=
  between 9 13 c || between 28 32 c || code_is 133 c || code_is 160 c.

(** [Py_UNICODE_ISDECIMAL]: the ten ASCII digits. *)
Definition isdecimal (c : ascii) : bool := between 48 57 c.

(** [Py_UNICODE_ISALNUM]: letters, and the characters with a decimal, digit
    or numeric value (superscripts one to three, the vulgar fractions). *)
Definition isalnum (c : ascii) : bool :=
  isdecimal c || between 65 90 c || between 97 122 c
  || code_is 170 c || code_is 178 c || code_is 179 c || code_is 181 c || code_is 185 c || code_is 186 c
  || between 188 190 c || between 192 214 c || between 216 246 c
  || between 248 255 c.

(** The [\w] class of a [str] pattern. *)
Definition isword (c : ascii) : bool := isalnum c || code_is 95 c.

(** Simple lower-case mapping. *)
Definition tolower (c : ascii) : ascii :=
  if between 65 90 c || between 192 214 c || between 216 222 c
  then ascii_of_N (code c + 32)
  else c.

End Char.

(** ** The string methods the module calls *)

Fixpoint dropwhile (f : ascii -> bool) (s : str) : str :=
  match s with
  | [] => []
  | c :: s' => if f c then dropwhile f s' else s
  end.

Definition lstrip (s : str) : str := dropwhile Char.isspace s.
Definition rstrip (s : str) : str := rev (dropwhile Char.isspace (rev s)).
Definition strip (s : str) : str := rstrip (lstrip s).

(** Truth value of a string: the empty string is false. *)
Definition truthy (s : str) : bool :=
  match s with [] => false | _ :: _ => true end.

(** [str(n)] for an integer, as the f-string formats it: the decimal digits,
    with a minus sign in front of a negative number.  CPython from 3.11 on
    converts an integer of at most 4300 digits and raises [ValueError] for a
    longer one.  [str_of_int] is the conversion, defined on every integer,
    and [within_int_str_digits] is the bound: beyond it the source raises
    where [str_of_int] has a value, so what is stated about a formatted cap
    takes the bound as a hypothesis.  The caps the gateway passes lie in
    1..1000. *)
Definition str_of_int (n : Z) : str :=
  list_ascii_of_string (NilZero.string_of_int (Z.to_int n)).

Definition INT_MAX_STR_DIGITS : Z := 4300.

Definition within_int_str_digits (n : Z) : bool :=
  (Z.of_nat (List.length (str_of_int (Z.abs n))) <=? INT_MAX_STR_DIGITS)%Z.

(** ** The fragment of [re] the module's patterns are written in

    Literal characters, the escapes [\b], [\s], [\d] and escaped
    punctuation, the quantifiers [*] and [+] on one character or class, [^],
    and capturing groups without quantifier.  [search] and [match] are used
    for their truth value only; the matcher backtracks as the library does,
    so it finds a match exactly when there is one. *)

Module Re.

Inductive category := CatSpace | CatDigit.

Inductive item :=
| Literal (c : ascii)
| Category (k : category).

Inductive atom :=
| One (i : item)
| Star (i : item)
| Plus (i : item)
| Boundary
| Bol.

Definition regex := list atom.

(** Lexical layer: escapes and metacharacters. *)
Inductive token :=
| TItem (i : item)
| TStar
| TPlus
| TBoundary
| TBol
| TOpen
| TClose.

Definition escape (x : ascii) : token :=
  if (x =? "b")%char then TBoundary
  else if (x =? "s")%char then TItem (Category CatSpace)
  else if (x =? "d")%char then TItem (Category CatDigit)
  else TItem (Literal x).

Definition plain (c : ascii) : token :=
  if (c =? "*")%char then TStar
  else if (c =? "+")%char then TPlus
  else if (c =? "^")%char then TBol
  else if (c =? "(")%char then TOpen
  else if (c =? ")")%char then TClose
  else TItem (Literal c).

Fixpoint lex (s : str) : list token :=
  match s with
  | [] => []
  | c :: r =>
      if (c =? "\")%char then
        match r with
        | x :: r' => escape x :: lex r'
        | [] => []
        end
      else plain c :: lex r
  end.

(** A quantifier binds the item before it.  The groups of the module's
    patterns carry no quantifier and only capture, so the parentheses leave
    the sequence of atoms as it is. *)
Fixpoint build (ts : list token) : regex :=
  match ts with
  | [] => []
  | TItem i :: r =>
      match r with
      | TStar :: r' => Star i :: build r'
      | TPlus :: r' => Plus i :: build r'
      | _ => One i :: build r
      end
  | TBoundary :: r => Boundary :: build r
  | TBol :: r => Bol :: build r
  | TOpen :: r => build r
  | TClose :: r => build r
  | TStar :: r => build r
  | TPlus :: r => build r
  end.

Definition parse (src : str) : regex := build (lex src).

(** Flags. *)
Definition NOFLAG : bool := false.
Definition IGNORECASE : bool := true.

Record Pattern := { atoms : regex; ignorecase : bool }.

Definition compile (src : str) (flags : bool) : Pattern :=
  {| atoms := parse src; ignorecase := flags |}.

Definition item_matches (ic : bool) (i : item) (x : ascii) : bool :=
  match i with
  | Literal c =>
      if ic then (Char.tolower x =? Char.tolower c)%char else (x =? c)%char
  | Category CatSpace => Char.isspace x
  | Category CatDigit => Char.isdecimal x
  end.

Definition word_opt (o : option ascii) : bool :=
  match o with Some c => Char.isword c | None => false end.

(** [\b]: exactly one of the characters before and after the position is a
    word character; outside the string counts as a non-word character. *)
Definition at_boundary (prev : option ascii) (s : str) : bool :=
  xorb (word_opt prev) (word_opt (hd_error s)).

(** Greedy repetition with backtracking: as many [f]-characters as possible,
    giving them back one at a time while the continuation fails. *)
Fixpoint star_loop (f : ascii -> bool) (k : option ascii -> str -> bool)
    (prev : option ascii) (s : str) : bool :=
  match s with
  | x :: s' => (f x && star_loop f k (Some x) s') || k prev s
  | [] => k prev s
  end.

(** Does the pattern match at this position?  [prev] is the character just
    before the position, [None] at the start of the string. *)
Fixpoint match_here (ic : bool) (p : regex) : option ascii -> str -> bool :=
  match p with
  | [] => fun _ _ => true
  | a :: p' =>
      match a with
      | One i => fun _ s =>
          match s with
          | x :: s' => item_matches ic i x && match_here ic p' (Some x) s'
          | [] => false
          end
      | Star i => star_loop (item_matches ic i) (match_here ic p')
      | Plus i => fun _ s =>
          match s with
          | x :: s' =>
              item_matches ic i x
              && star_loop (item_matches ic i) (match_here ic p') (Some x) s'
          | [] => false
          end
      | Boundary => fun prev s => at_boundary prev s && match_here ic p' prev s
      | Bol => fun prev s =>
          match prev with
          | None => match_here ic p' prev s
          | Some _ => false
          end
      end
  end.

(** Try every start position from left to right, the end included. *)
Fixpoint search_from (ic : bool) (p : regex) (prev : option ascii) (s : str)
    : bool :=
  match_here ic p prev s
  || match s with
     | [] => false
     | x :: s' => search_from ic p (Some x) s'
     end.

(** [pattern.search(s)] and [pattern.match(s)], as truth values. *)
Definition Pattern_search (p : Pattern) (s : str) : bool :=
  search_from (ignorecase p) (atoms p) None s.

Definition Pattern_match (p : Pattern) (s : str) : bool :=
  match_here (ignorecase p) (atoms p) None s.

(** [re.search(pattern, s, flags)] and [re.match(pattern, s, flags)]. *)
Definition search (pattern s : str) (flags : bool) : bool :=
  Pattern_search (compile pattern flags) s.

Definition match_ (pattern s : str) (flags : bool) : bool :=
  Pattern_match (compile pattern flags) s.

End Re.

(** ** sql_sanitizer.py *)

Definition BLOCKED_TOKENS : list str :=
  [ "\bINSERT\b" : str; "\bUPDATE\b" : str; "\bDELETE\b" : str; "\bDROP\b" : str;
    "\bCREATE\b" : str; "\bALTER\b" : str; "\bTRUNCATE\b" : str; "\bREVOKE\b" : str;
    "\bGRANT\b" : str; "\bVACUUM\b" : str; "\bANALYZE\b" : str; "\bLOCK\b" : str;
    "\bSET\b" : str; "\bSHOW\b" : str; "\bCOMMENT\b" : str ].

Definition SYSTEM_TABLES : list str :=
  [ "pg_catalog" : str; "information_schema" : str ].

Definition SELECT_RE : Re.Pattern := Re.compile "^\s*(\(*\s*SELECT\b)" Re.IGNORECASE.
Definition SEMICOLON_RE : Re.Pattern := Re.compile ";" Re.NOFLAG.
Definition LIMIT_RE : Re.Pattern := Re.compile "\bLIMIT\s+\d+\b" Re.IGNORECASE.

(** Exceptions, with the text [str(e)] gives: the module's own class, and
    any other class. *)
Inductive exn :=
| SQLSanitizerError (msg : str)
| Exception (msg : str).

Inductive result (A : Type) :=
| Return (a : A)
| Raise (e : exn).
Arguments Return {A} a.
Arguments Raise {A} e.

(** The first pattern of the list found in [s], as the [for] loops look for
    it. *)
Fixpoint first_found (patterns : list str) (s : str) : option str :=
  match patterns with
  | [] => None
  | p :: ps =>
      if Re.search p s Re.IGNORECASE then Some p else first_found ps s
  end.

Definition basic_sanitize_and_enforce (sql : str) (max_rows : Z) : result str :=
  if negb (truthy sql) || negb (truthy (strip sql)) then
    Raise (SQLSanitizerError "Empty SQL returned from model.")
  else
    let cleaned := strip sql in
    if Re.Pattern_search SEMICOLON_RE cleaned then
      Raise (SQLSanitizerError "Multiple statements or semicolons not allowed.")
    else
      match first_found (map (fun p => "\b" ++ p ++ "\b") SYSTEM_TABLES) cleaned with
      | Some _ =>
          Raise (SQLSanitizerError "Access to system catalogs is not allowed.")
      | None =>
          match first_found BLOCKED_TOKENS cleaned with
          | Some token =>
              Raise (SQLSanitizerError
                       ("Disallowed SQL operation detected: " ++ token))
          | None =>
              if negb (Re.Pattern_match SELECT_RE cleaned)
                 && negb (Re.match_ "^\s*WITH\b" cleaned Re.IGNORECASE)
              then Raise (SQLSanitizerError "Only SELECT queries are allowed.")
              else
                Return
                  (if negb (Re.Pattern_search LIMIT_RE cleaned)
                   then rstrip cleaned ++ " LIMIT " ++ str_of_int max_rows
                   else cleaned)
          end
      end.

(** ** The database cursor

    A statement given to the cursor either raises or leaves a result set.
    The database is read as a function of the statement and its parameters;
    the cursor keeps the list of the statements it was given. *)

Section Gateway.

(** The values in the cells of a row, the readings of the clock and the
    difference of two readings. *)
Variable value : Type.
Variable time : Type.
Variable time_sub : time -> time -> time.

Definition row := list value.

(** The rows a statement left on the cursor, the description of their
    columns, and what the driver's [fetchmany] answers when it is asked for a
    number of rows that is not positive: the DB-API leaves that to the
    driver (one returns every row, another raises). *)
Record result_set := {
  description : option (list (str * Z));
  all_rows : list row;
  fetch_nonpositive : Z -> result (list row)
}.

Definition statement := (str * list str)%type.

Definition database := str -> list str -> result result_set.

Definition fetchall (rs : result_set) : list row := all_rows rs.

(** [cursor.fetchmany(size)] on a cursor no row was fetched from: the first
    [size] rows for a positive [size], the driver's answer otherwise. *)
Definition fetchmany (size : Z) (rs : result_set) : result (list row) :=
  if (0 <? size)%Z then Return (firstn (Z.to_nat size) (all_rows rs))
  else fetch_nonpositive rs size.

(** What a call leaves behind, next to its value: the statements the cursor
    was given, in order. *)
Record executed (A : Type) := {
  value_of : result A;
  statements : list statement
}.
Arguments value_of {A} e.
Arguments statements {A} e.

Definition execute_sql (db : database) (sql : str) (row_limit : Z)
    : executed (list row) :=
  match basic_sanitize_and_enforce sql 1000 with
  | Raise e => {| value_of := Raise e; statements := [] |}
  | Return sql =>
      match db sql [] with
      | Raise e => {| value_of := Raise e; statements := [(sql, [])] |}
      | Return rs =>
          {| value_of := fetchmany row_limit rs;
             statements := [(sql, [])] |}
      end
  end.

(** ** gemini_client.py *)

Definition NL : str := ["010"%char].

Fixpoint startswith (p s : str) : bool :=
  match p, s with
  | [], _ => true
  | a :: p', b :: s' => (a =? b)%char && startswith p' s'
  | _ :: _, [] => false
  end.

(** [s.strip(chars)] *)
Definition strip_chars (chars s : str) : str :=
  let f c := existsb (Ascii.eqb c) chars in
  rev (dropwhile f (rev (dropwhile f s))).

(** [s.replace(old, new)] for a non-empty [old]: occurrences are replaced
    from left to right and do not overlap; [skip] counts the characters of
    an occurrence still to pass over. *)
Fixpoint replace_from (old new : str) (skip : nat) (s : str) : str :=
  match s with
  | [] => []
  | c :: s' =>
      match skip with
      | S k => replace_from old new k s'
      | O =>
          if startswith old s
          then new ++ replace_from old new (List.length old - 1) s'
          else c :: replace_from old new 0 s'
      end
  end.

Definition replace (old new s : str) : str := replace_from old new 0 s.

(** What the gateway finds around it: the schema text of the installed
    models, the generator ([generate_content] and the [text] of its
    response, or the exception either raises), the database, and the two
    readings of the clock. *)
Record Environment := {
  get_schema_context : str;
  generate_content : str -> result str;
  db : database;
  time_start : time;
  time_end : time
}.

Definition nl_to_sql (env : Environment) (nl_query schema_hint : str)
    : result str :=
  let schema_hint := get_schema_context env in
  let system_prompt : str :=
    "You are an expert SQL generator for PostgreSQL. "
    ++ "Always use double quotes for table and column names exactly as in the schema. "
    ++ "Only produce a single SELECT statement, no semicolons and make the sql in one line. "
    ++ "Return only SQL, no explanations." ++ NL ++ NL
    ++ "Database schema:" ++ NL ++ schema_hint ++ NL ++ NL
    ++ "User question:" ++ NL ++ nl_query ++ NL ++ NL in
  match generate_content env system_prompt with
  | Raise e => Raise e
  | Return text =>
      let sql := strip text in
      Return (if startswith "```" sql
              then strip (replace "sql" "" (strip_chars "`" sql))
              else sql)
  end.

(** ** models.py, serializers.py and views.py *)

Record Meta := { runtime_s : time; row_count : nat }.

(** The fields of a [QueryLog] that the view sets; [id] and [created_at]
    are filled in by the store. *)
Record QueryLog := {
  nl_query : str;
  generated_sql : option str;
  status : str;
  error : option str;
  meta : option Meta
}.

(** [QueryLog.objects.create(nl_query=..., status=...)]: the other fields
    take their defaults. *)
Definition QueryLog_create (nl_query status : str) : QueryLog :=
  {| nl_query := nl_query; generated_sql := None; status := status;
     error := None; meta := None |}.

Definition set_generated_sql (log : QueryLog) (sql : str) : QueryLog :=
  {| nl_query := nl_query log; generated_sql := Some sql;
     status := status log; error := error log; meta := meta log |}.

Definition set_status (log : QueryLog) (st : str) : QueryLog :=
  {| nl_query := nl_query log; generated_sql := generated_sql log;
     status := st; error := error log; meta := meta log |}.

Definition set_error (log : QueryLog) (msg : str) : QueryLog :=
  {| nl_query := nl_query log; generated_sql := generated_sql log;
     status := status log; error := Some msg; meta := meta log |}.

Definition set_meta (log : QueryLog) (m : Meta) : QueryLog :=
  {| nl_query := nl_query log; generated_sql := generated_sql log;
     status := status log; error := error log; meta := Some m |}.

(** The writes to the audit table: the insert of [objects.create] and the
    updates of [log.save()].  The table accepts every write. *)
Inductive write :=
| Created (log : QueryLog)
| Saved (log : QueryLog).

Definition written (w : write) : QueryLog :=
  match w with Created log => log | Saved log => log end.

(** The serializer's validated data.  A request that fails validation raises
    before the body of [post] and is answered by the framework. *)
Record validated_data := {
  data_nl_query : str;
  data_schema : option str;
  data_format : option str;
  data_max_rows : option Z
}.

Definition get {A} (field : option A) (default : A) : A :=
  match field with Some a => a | None => default end.

Fixpoint str_eqb (a b : str) : bool :=
  match a, b with
  | [], [] => true
  | x :: a', y :: b' => (x =? y)%char && str_eqb a' b'
  | _, _ => false
  end.

(** A dictionary keeps the order in which its keys were first set. *)
Definition dict := list (str * value).

Fixpoint dict_set (d : dict) (k : str) (v : value) : dict :=
  match d with
  | [] => [(k, v)]
  | (k', v') :: d' =>
      if str_eqb k' k then (k', v) :: d' else (k', v') :: dict_set d' k v
  end.

(** [dict(zip(columns, r))] *)
Definition dict_zip (columns : list str) (r : row) : dict :=
  fold_left (fun d kv => dict_set d (fst kv) (snd kv)) (combine columns r) [].

(** [pd.DataFrame(results).to_csv(index=False)]: the text, or the exception
    pandas raises. *)
Variable to_csv : list dict -> result str.

Inductive body :=
| RowsBody (sql : str) (rows : list dict) (meta : option Meta)
| CsvBody (csv : str) (rows : nat)
| ErrorBody (error : str)
| FailureBody (error detail : str).

Record Response := { data : body; status_code : nat }.

Definition HTTP_200_OK : nat := 200.
Definition HTTP_400_BAD_REQUEST : nat := 400.
Definition HTTP_500_INTERNAL_SERVER_ERROR : nat := 500.

(** [import pandas as pd] has succeeded when the module is loaded. *)
Definition pd_is_None : bool := false.

(** What [post] leaves behind: the response, the writes to the audit table
    and the statements given to the cursor. *)
Record handled := {
  response : Response;
  audit : list write;
  cursor_log : list statement
}.

(** The two [except] clauses; [log] is the record as it stands when the
    exception is raised. *)
Definition on_exception (log : QueryLog) (e : exn) (writes : list write)
    (stmts : list statement) : handled :=
  match e with
  | SQLSanitizerError msg =>
      let log := set_error (set_status log "rejected") msg in
      {| response := {| data := ErrorBody msg;
                        status_code := HTTP_400_BAD_REQUEST |};
         audit := writes ++ [Saved log];
         cursor_log := stmts |}
  | Exception msg =>
      let log := set_error (set_status log "error") msg in
      {| response := {| data := FailureBody "Execution failed" msg;
                        status_code := HTTP_500_INTERNAL_SERVER_ERROR |};
         audit := writes ++ [Saved log];
         cursor_log := stmts |}
  end.

Definition SET_TIMEOUT : statement :=
  ("SET LOCAL statement_timeout = %s" : str, ["5000" : str]).

Definition post (env : Environment) (data : validated_data) : handled :=
  let nl_query := data_nl_query data in
  let schema_hint := get (data_schema data) ("" : str) in
  let out_format := get (data_format data) ("json" : str) in
  let max_rows := get (data_max_rows data) 1000%Z in
  let log := QueryLog_create nl_query "running" in
  let w0 := [Created log] in
  match nl_to_sql env nl_query schema_hint with
  | Raise e => on_exception log e w0 []
  | Return raw_sql =>
      let log := set_generated_sql log raw_sql in
      let w1 := w0 ++ [Saved log] in
      match basic_sanitize_and_enforce raw_sql max_rows with
      | Raise e => on_exception log e w1 []
      | Return sql =>
          match db env (fst SET_TIMEOUT) (snd SET_TIMEOUT) with
          | Raise e => on_exception log e w1 [SET_TIMEOUT]
          | Return _ =>
              let stmts := [SET_TIMEOUT; (sql, [])] in
              match db env sql [] with
              | Raise e => on_exception log e w1 stmts
              | Return rs =>
                  let columns :=
                    match description rs with
                    | Some cols => map fst cols
                    | None => []
                    end in
                  let rows := fetchall rs in
                  let runtime := time_sub (time_end env) (time_start env) in
                  let log :=
                    set_meta (set_status log "success")
                      {| runtime_s := runtime;
                         row_count := List.length rows |} in
                  let w2 := w1 ++ [Saved log] in
                  let results := map (dict_zip columns) rows in
                  if str_eqb out_format "dataframe_csv" then
                    if pd_is_None then
                      {| response :=
                           {| data := ErrorBody
                                        "pandas is not installed on server.";
                              status_code := HTTP_500_INTERNAL_SERVER_ERROR |};
                         audit := w2; cursor_log := stmts |}
                    else
                      match to_csv results with
                      | Raise e => on_exception log e w2 stmts
                      | Return csv =>
                          {| response :=
                               {| data := CsvBody csv (List.length results);
                                  status_code := HTTP_200_OK |};
                             audit := w2; cursor_log := stmts |}
                      end
                  else
                    {| response :=
                         {| data := RowsBody sql results (meta log);
                            status_code := HTTP_200_OK |};
                       audit := w2; cursor_log := stmts |}
              end
          end
      end
  end.

End Gateway.

Arguments fetchall {value} rs.
Arguments fetchmany {value} size rs.
Arguments execute_sql {value} db sql row_limit.
Arguments nl_to_sql {value time} env nl_query schema_hint.
Arguments post {value time} time_sub to_csv env data.
Arguments value_of {A} e.
Arguments statements {A} e.
Arguments Created {time} log.
Arguments Saved {time} log.
Arguments written {time} w.
Arguments nl_query {time} q.
Arguments generated_sql {time} q.
Arguments error {time} q.
Arguments meta {time} q.
Arguments QueryLog_create {time} nl_query status.
Arguments RowsBody {value time} sql rows meta.
Arguments CsvBody {value time} csv rows.
Arguments ErrorBody {value time} error.
Arguments FailureBody {value time} error detail.
Arguments data {value time} r.
Arguments status_code {value time} r.
Arguments all_rows {value} r.
Arguments fetch_nonpositive {value} r size.
Arguments description {value} r.
Arguments db {value time} e.
Arguments generate_content {value time} e.
Arguments get_schema_context {value time} e.
Arguments status {time} q.
Arguments response {value time} h.
Arguments audit {value time} h.
Arguments cursor_log {value time} h.

(** ** The life cycle of a run, as the design document draws it *)

Definition terminal (st : str) : bool :=
  str_eqb st "success" || str_eqb st "rejected" || str_eqb st "error".

(** The statuses a run goes through, in the order they are written. *)
Definition history {time} (ws : list (write time)) : list str :=
  map (fun w => status (written w)) ws.

(** A history in the document's words: created, then running, then one
    terminal state. *)
Definition spec_lifecycle (h : list str) : bool :=
  match h with
  | first :: rest =>
      str_eqb first "created"
      && match rev rest with
         | last :: middle =>
             terminal last
             && negb (match middle with [] => true | _ => false end)
             && forallb (fun st => str_eqb st "running") middle
         | [] => false
         end
  | [] => false
  end.

(** A history of the view: running, written one or more times, then one
    terminal state, and nothing after it. *)
Definition running_then_terminal (h : list str) : bool :=
  match rev h with
  | last :: before =>
      terminal last
      && negb (match before with [] => true | _ => false end)
      && forallb (fun st => str_eqb st "running") before
  | [] => false
  end.

(** The last status written is a terminal one. *)
Definition ends_terminal (h : list str) : bool :=
  match rev h with
  | last :: _ => terminal last
  | [] => false
  end.

(** How many records the writes insert. *)
Definition creations {time} (ws : list (write time)) : nat :=
  List.length (filter (fun w => match w with Created _ => true | Saved _ => false end) ws).

(** ** The properties, said directly on strings

    The design document speaks of whole words, of a string beginning with
    SELECT or WITH and of a LIMIT clause.  These read a string directly,
    without the pattern matcher. *)

Definition eqb_ci (a b : ascii) : bool :=
  (Char.tolower a =? Char.tolower b)%char.

(** [s] begins with [w], in any letter case. *)
Fixpoint prefix_ci (w s : str) : bool :=
  match w, s with
  | [], _ => true
  | a :: w', b :: s' => eqb_ci a b && prefix_ci w' s'
  | _ :: _, [] => false
  end.

Definition nonword (o : option ascii) : bool := negb (Re.word_opt o).

(** [w] stands at the head of [s] as a whole word: the characters before and
    after it are not word characters. *)
Definition word_here (w : str) (prev : option ascii) (s : str) : bool :=
  nonword prev && prefix_ci w s && nonword (nth_error s (List.length w)).

(** Try a test at every position of a string, from left to right; [prev] is
    the character before the position. *)
Fixpoint scan (h : option ascii -> str -> bool) (prev : option ascii)
    (s : str) : bool :=
  h prev s
  || match s with
     | [] => false
     | c :: s' => scan h (Some c) s'
     end.

Definition occurs_from (w : str) : option ascii -> str -> bool :=
  scan (word_here w).

(** [w] occurs somewhere in [s] as a whole word, in any letter case. *)
Definition contains_word (w s : str) : bool := occurs_from w None s.

Definition BLOCKED_KEYWORDS : list str :=
  [ "INSERT" : str; "UPDATE" : str; "DELETE" : str; "DROP" : str;
    "CREATE" : str; "ALTER" : str; "TRUNCATE" : str; "REVOKE" : str;
    "GRANT" : str; "VACUUM" : str; "ANALYZE" : str; "LOCK" : str;
    "SET" : str; "SHOW" : str; "COMMENT" : str ].

Definition is_paren (c : ascii) : bool := (c =? "(")%char.

(** What [SELECT_RE] accepts: white space, then opening parentheses, then
    white space, then the whole word SELECT. *)
Definition select_shape (s : str) : bool :=
  let body := dropwhile Char.isspace (dropwhile is_paren (dropwhile Char.isspace s)) in
  prefix_ci "SELECT" body && nonword (nth_error body 6).

(** What the second pattern accepts: white space, then the whole word WITH. *)
Definition with_shape (s : str) : bool :=
  let body := dropwhile Char.isspace s in
  prefix_ci "WITH" body && nonword (nth_error body 4).

(** The first character of [s] is there and satisfies [f]. *)
Definition headed (f : ascii -> bool) (s : str) : bool :=
  match s with c :: _ => f c | [] => false end.

(** A whole run of decimal digits: at least one, and no word character
    after the last. *)
Definition digits_tail (s : str) : bool :=
  headed Char.isdecimal s && nonword (hd_error (dropwhile Char.isdecimal s)).

(** White space, at least one character of it, then a whole run of digits. *)
Definition limit_tail (r : str) : bool :=
  headed Char.isspace r && digits_tail (dropwhile Char.isspace r).

(** A LIMIT clause at the head of [s]: the whole word LIMIT, white space, and
    a whole run of decimal digits. *)
Definition limit_here (prev : option ascii) (s : str) : bool :=
  nonword prev && prefix_ci "LIMIT" s && limit_tail (skipn 5 s).

Definition limit_from : option ascii -> str -> bool := scan limit_here.

(** [s] contains a LIMIT <integer> clause, in any letter case. *)
Definition has_limit (s : str) : bool := limit_from None s.

(** The four checks that come before the SELECT/WITH check. *)
Definition passes_earlier_checks (sql : str) : bool :=
  truthy (strip sql)
  && negb (existsb (Ascii.eqb ";") sql)
  && negb (existsb (fun p => contains_word p sql) SYSTEM_TABLES)
  && negb (existsb (fun k => contains_word k sql) BLOCKED_KEYWORDS).

(** The design document's wording of the SELECT/WITH rule: leading
    parentheses and white space are stripped in any interleaving, and the
    rest begins with SELECT; or the string begins with WITH. *)
Definition spec_select_start (s : str) : bool :=
  prefix_ci "SELECT" (dropwhile (fun c => Char.isspace c || is_paren c) s).

Definition spec_with_start (s : str) : bool := prefix_ci "WITH" s.

(** The five messages of the gate. *)
Definition EMPTY_INPUT : exn :=
  SQLSanitizerError "Empty SQL returned from model.".
Definition MULTIPLE_STATEMENTS : exn :=
  SQLSanitizerError "Multiple statements or semicolons not allowed.".
Definition SYSTEM_CATALOG_ACCESS : exn :=
  SQLSanitizerError "Access to system catalogs is not allowed.".
Definition BLOCKED_KEYWORD (token : str) : exn :=
  SQLSanitizerError ("Disallowed SQL operation detected: " ++ token).
Definition NOT_A_SELECT : exn :=
  SQLSanitizerError "Only SELECT queries are allowed.".

(** ** Auxiliary definitions of the proofs *)

(** The last character of [u], the one before what follows [u]. *)
Definition before (u : str) : option ascii :=
  fold_left (fun _ c => Some c) u None.

(** The atoms of a word written in a pattern. *)
Definition lits (w : str) : Re.regex := map (fun c => Re.One (Re.Literal c)) w.

(** [s] begins with the word [w], and no word character follows it. *)
Definition whole_word_head (w s : str) : bool :=
  prefix_ci w s && nonword (nth_error s (List.length w)).

(** The pattern of a whole word. *)
Definition wrap (p : str) : str := "\b" ++ p ++ "\b".

(** The seventeen words the module looks for. *)
Definition WORDS : list str := SYSTEM_TABLES ++ BLOCKED_KEYWORDS.

(** The checks of [basic_sanitize_and_enforce] on the trimmed string, each
    in its direct reading. *)
Definition gate (c : str) (max_rows : Z) : result str :=
  if negb (truthy c) then Raise EMPTY_INPUT
  else if existsb (Ascii.eqb ";") c then Raise MULTIPLE_STATEMENTS
  else if existsb (fun p => contains_word p c) SYSTEM_TABLES
  then Raise SYSTEM_CATALOG_ACCESS
  else
    match find (fun k => contains_word k c) BLOCKED_KEYWORDS with
    | Some k => Raise (BLOCKED_KEYWORD (wrap k))
    | None =>
        if select_shape c || with_shape c
        then Return (if has_limit c then c
                     else c ++ " LIMIT " ++ str_of_int max_rows)
        else Raise NOT_A_SELECT
    end.

(** The characters of [str(n)]. *)
Definition digit_or_minus (c : ascii) : bool :=
  Char.isdecimal c || (c =? "-")%char.

(** The first character of [w] is none of them, in either letter case. *)
Definition starts_alpha (w : str) : bool :=
  headed (fun a => negb (digit_or_minus (Char.tolower a))) w.

(** The last step of the gate. *)
Definition limit_enforced (c : str) (max_rows : Z) : str :=
  if has_limit c then c else c ++ " LIMIT " ++ str_of_int max_rows.

(** ** A small database and generator to run the gateway on *)

Definition demo_rows : list (list Z) := [[1%Z]; [2%Z]; [3%Z]].

Definition demo_db : database Z :=
  fun _ _ =>
    Return {| description := Some [("id" : str, 23%Z)];
              all_rows := demo_rows;
              fetch_nonpositive := fun _ => Return demo_rows |}.

Definition demo_env (answer : str) : Environment Z Z :=
  {| get_schema_context := "Table: orders" : str;
     generate_content := fun _ => Return answer;
     db := demo_db;
     time_start := 0%Z;
     time_end := 2%Z |}.

Definition demo_request (schema : option str) (max_rows : Z) : validated_data :=
  {| data_nl_query := "all orders" : str;
     data_schema := schema;
     data_format := None;
     data_max_rows := Some max_rows |}.

Definition demo_post (answer : str) (data : validated_data) : handled Z Z :=
  post Z.sub (fun _ => Return ([] : str)) (demo_env answer) data.

(** The rows of a JSON response. *)
Definition rows_of {value time} (r : Response value time) : list (dict value) :=
  match data r with
  | RowsBody _ rows _ => rows
  | _ => []
  end.

(** ** What further properties speak of *)

(** The exception a call raised, if it raised one. *)
Definition rejection {A} (r : result A) : option exn :=
  match r with
  | Raise e => Some e
  | Return _ => None
  end.

(** A string with its letters in lower case. *)
Definition lower (s : str) : str := map Char.tolower s.

(** The record as the last write leaves it. *)
Definition final_log {time} (ws : list (write time)) : option (QueryLog time) :=
  match rev ws with
  | w :: _ => Some (written w)
  | [] => None
  end.

(** * Proofs *)

(** ** Characters *)

Ltac each_char c :=
  destruct c as [[] [] [] [] [] [] [] []]; try reflexivity; try discriminate.

Lemma space_not_word c : Char.isspace c = true -> Char.isword c = false.
Proof. each_char c. Qed.

Lemma decimal_is_word c : Char.isdecimal c = true -> Char.isword c = true.
Proof. each_char c. Qed.

Lemma decimal_not_space c : Char.isdecimal c = true -> Char.isspace c = false.
Proof. each_char c. Qed.

Lemma tolower_word c : Char.isword (Char.tolower c) = Char.isword c.
Proof. each_char c. Qed.

Lemma tolower_space c : Char.isspace (Char.tolower c) = Char.isspace c.
Proof. each_char c. Qed.

Lemma eqb_ci_word a b : eqb_ci a b = true -> Char.isword a = Char.isword b.
Proof.
  unfold eqb_ci. intros H. apply Ascii.eqb_eq in H.
  rewrite <- (tolower_word a), <- (tolower_word b). now rewrite H.
Qed.

Lemma eqb_ci_space a b : eqb_ci a b = true -> Char.isspace a = Char.isspace b.
Proof.
  unfold eqb_ci. intros H. apply Ascii.eqb_eq in H.
  rewrite <- (tolower_space a), <- (tolower_space b). now rewrite H.
Qed.

(** ** Strings *)

Lemma headed_false_nil f : headed f [] = false.
Proof. reflexivity. Qed.

Lemma dropwhile_headed f s : headed f (dropwhile f s) = false.
Proof.
  induction s as [|c s IH]; simpl; [reflexivity|].
  destruct (f c) eqn:E; [exact IH | simpl; exact E].
Qed.

Lemma dropwhile_split f s :
  exists pre, forallb f pre = true /\ s = pre ++ dropwhile f s.
Proof.
  induction s as [|c s [pre [Hp Hs]]]; simpl.
  - exists []. split; reflexivity.
  - destruct (f c) eqn:E.
    + exists (c :: pre). simpl. rewrite E, Hp. split; [reflexivity|].
      now rewrite <- Hs.
    + exists []. split; reflexivity.
Qed.

Lemma dropwhile_id f s : headed f s = false -> dropwhile f s = s.
Proof. destruct s as [|c s]; simpl; intros H; [reflexivity | now rewrite H]. Qed.

Lemma dropwhile_idem f s : dropwhile f (dropwhile f s) = dropwhile f s.
Proof. apply dropwhile_id, dropwhile_headed. Qed.

Lemma dropwhile_all f pre s :
  forallb f pre = true -> dropwhile f (pre ++ s) = dropwhile f s.
Proof.
  induction pre as [|c pre IH]; simpl; intros H; [reflexivity|].
  apply andb_true_iff in H as [Hc Hp]. rewrite Hc. auto.
Qed.

Lemma dropwhile_keep f s t :
  dropwhile f s <> [] -> dropwhile f (s ++ t) = dropwhile f s ++ t.
Proof.
  induction s as [|c s IH]; simpl; intros H; [now elim H|].
  destruct (f c); [auto | reflexivity].
Qed.

Lemma dropwhile_incl f s c : In c (dropwhile f s) -> In c s.
Proof.
  destruct (dropwhile_split f s) as [pre [_ Hs]]. intros H.
  rewrite Hs. apply in_or_app. now right.
Qed.

Lemma dropwhile_keeps f s c : In c s -> f c = false -> In c (dropwhile f s).
Proof.
  induction s as [|x s IH]; simpl; intros H Hc; [exact H|].
  destruct (f x) eqn:E.
  - destruct H as [->|H]; [congruence | auto].
  - exact H.
Qed.

Lemma rstrip_split s :
  exists ws, forallb Char.isspace ws = true /\ s = rstrip s ++ ws.
Proof.
  unfold rstrip.
  destruct (dropwhile_split Char.isspace (rev s)) as [pre [Hp Hs]].
  exists (rev pre). split.
  - rewrite forallb_forall in *. intros x Hx. apply Hp. now apply in_rev.
  - rewrite <- rev_app_distr, <- Hs. symmetry. apply rev_involutive.
Qed.

Lemma rstrip_last s : headed Char.isspace (rev (rstrip s)) = false.
Proof. unfold rstrip. rewrite rev_involutive. apply dropwhile_headed. Qed.

Lemma rstrip_id s : headed Char.isspace (rev s) = false -> rstrip s = s.
Proof.
  intros H. unfold rstrip. rewrite dropwhile_id by exact H.
  apply rev_involutive.
Qed.

Lemma rstrip_idem s : rstrip (rstrip s) = rstrip s.
Proof. apply rstrip_id, rstrip_last. Qed.

Lemma strip_split s :
  exists l r, forallb Char.isspace l = true /\ forallb Char.isspace r = true
              /\ s = l ++ strip s ++ r.
Proof.
  destruct (dropwhile_split Char.isspace s) as [l [Hl Hs]].
  destruct (rstrip_split (lstrip s)) as [r [Hr Hs']].
  exists l, r. repeat split; try assumption.
  unfold strip. rewrite <- Hs'. exact Hs.
Qed.

Lemma strip_head s : headed Char.isspace (strip s) = false.
Proof.
  destruct (rstrip_split (lstrip s)) as [r [Hr Hs]].
  fold (strip s) in Hs.
  destruct (strip s) as [|c t] eqn:E; [reflexivity|].
  assert (H := dropwhile_headed Char.isspace s).
  fold (lstrip s) in H. rewrite Hs in H. exact H.
Qed.

Lemma strip_last s : headed Char.isspace (rev (strip s)) = false.
Proof. apply rstrip_last. Qed.

Lemma rstrip_strip s : rstrip (strip s) = strip s.
Proof. apply rstrip_idem. Qed.

Lemma strip_id s :
  headed Char.isspace s = false -> headed Char.isspace (rev s) = false ->
  strip s = s.
Proof.
  intros H1 H2. unfold strip, lstrip. rewrite (dropwhile_id _ _ H1).
  now apply rstrip_id.
Qed.

Lemma strip_idem s : strip (strip s) = strip s.
Proof. apply strip_id; [apply strip_head | apply strip_last]. Qed.

Lemma strip_incl s c : In c (strip s) -> In c s.
Proof.
  destruct (strip_split s) as [l [r [_ [_ Hs]]]]. intros H.
  rewrite Hs. apply in_or_app. right. apply in_or_app. now left.
Qed.

Lemma strip_keeps s c : In c s -> Char.isspace c = false -> In c (strip s).
Proof.
  intros H Hc. unfold strip, rstrip. rewrite <- in_rev.
  apply dropwhile_keeps; [|exact Hc]. rewrite <- in_rev.
  now apply dropwhile_keeps.
Qed.

Lemma truthy_In (s : str) c : In c s -> truthy s = true.
Proof. destruct s; [intros [] | reflexivity]. Qed.

(** ** The matcher on the shapes of the module's patterns *)

Lemma hd_skipn (n : nat) (s : str) : hd_error (skipn n s) = nth_error s n.
Proof.
  revert s. induction n as [|n IH]; intros [|c s]; simpl; auto.
Qed.

Lemma item_literal_ci c x : Re.item_matches true (Re.Literal c) x = eqb_ci c x.
Proof. unfold eqb_ci. simpl. apply Ascii.eqb_sym. Qed.

(** A run of literals consumes a prefix equal to it up to letter case. *)
Lemma match_lits w p prev s :
  Re.match_here true (lits w ++ p) prev s
  = prefix_ci w s
    && Re.match_here true p
         (match List.length w with O => prev | S k => nth_error s k end)
         (skipn (List.length w) s).
Proof.
  revert prev s. induction w as [|a w IH]; intros prev s.
  - reflexivity.
  - destruct s as [|x s].
    + reflexivity.
    + change (Re.match_here true (lits (a :: w) ++ p) prev (x :: s))
        with (Re.item_matches true (Re.Literal a) x
              && Re.match_here true (lits w ++ p) (Some x) s).
      rewrite item_literal_ci, IH. simpl prefix_ci. simpl List.length.
      rewrite <- andb_assoc. do 2 f_equal.
      destruct (List.length w); reflexivity.
Qed.

Lemma prefix_ci_word w s k :
  prefix_ci w s = true -> forallb Char.isword w = true ->
  k < List.length w -> Re.word_opt (nth_error s k) = true.
Proof.
  revert s k. induction w as [|a w IH]; intros s k Hp Hw Hk.
  - simpl in Hk. lia.
  - destruct s as [|x s]; [discriminate|]. simpl in Hp, Hw.
    apply andb_true_iff in Hp as [Hax Hp].
    apply andb_true_iff in Hw as [Ha Hw].
    destruct k as [|k]; simpl.
    + rewrite <- (eqb_ci_word _ _ Hax). exact Ha.
    + apply IH; try assumption. simpl in Hk. lia.
Qed.

(** A word followed by [\b]: the character after it is not a word
    character. *)
Lemma match_word_tail w prev s :
  w <> [] -> forallb Char.isword w = true ->
  Re.match_here true (lits w ++ [Re.Boundary]) prev s
  = prefix_ci w s && nonword (nth_error s (List.length w)).
Proof.
  intros Hne Hw. rewrite match_lits.
  destruct (prefix_ci w s) eqn:Hp; [|reflexivity]. simpl.
  destruct w as [|a w]; [now elim Hne|].
  simpl List.length. unfold Re.at_boundary.
  rewrite (prefix_ci_word (a :: w) s (List.length w) Hp Hw) by (simpl; lia).
  rewrite hd_skipn, andb_true_r. reflexivity.
Qed.

(** [\bword\b] at a position. *)
Lemma match_word w prev s :
  w <> [] -> forallb Char.isword w = true ->
  Re.match_here true (Re.Boundary :: lits w ++ [Re.Boundary]) prev s
  = word_here w prev s.
Proof.
  intros Hne Hw.
  change (Re.match_here true (Re.Boundary :: lits w ++ [Re.Boundary]) prev s)
    with (Re.at_boundary prev s
          && Re.match_here true (lits w ++ [Re.Boundary]) prev s).
  rewrite match_word_tail by assumption. unfold word_here.
  destruct (prefix_ci w s) eqn:Hp.
  - unfold Re.at_boundary.
    assert (H0 : Re.word_opt (nth_error s 0) = true).
    { apply (prefix_ci_word w s 0 Hp Hw). destruct w; [now elim Hne | simpl; lia]. }
    replace (hd_error s) with (nth_error s 0) by (destruct s; reflexivity).
    rewrite H0. unfold nonword. now destruct (Re.word_opt prev).
  - simpl. now rewrite !andb_false_r.
Qed.

Lemma search_from_ext ic p (h : option ascii -> str -> bool) :
  (forall prev s, Re.match_here ic p prev s = h prev s) ->
  forall prev s, Re.search_from ic p prev s = scan h prev s.
Proof.
  intros H prev s. revert prev.
  induction s as [|x s IH]; intros prev; simpl; rewrite H; [reflexivity|].
  now rewrite IH.
Qed.

Lemma search_word w prev s :
  w <> [] -> forallb Char.isword w = true ->
  Re.search_from true (Re.Boundary :: lits w ++ [Re.Boundary]) prev s
  = occurs_from w prev s.
Proof.
  intros Hne Hw.
  apply search_from_ext. intros. now apply match_word.
Qed.

(** Greedy repetition when the continuation gains nothing from a shorter
    run: the whole run is consumed. *)
Lemma star_absorb f (k : option ascii -> str -> bool) prev s :
  (forall p p' t, k p t = k p' t) ->
  (forall x t, f x = true -> k None (x :: t) = true ->
               k None (dropwhile f t) = true) ->
  Re.star_loop f k prev s = k None (dropwhile f s).
Proof.
  intros Hind Habs. revert prev.
  induction s as [|x s IH]; intros prev; simpl.
  - apply Hind.
  - destruct (f x) eqn:E; simpl.
    + rewrite IH, (Hind prev None).
      destruct (k None (x :: s)) eqn:K.
      * rewrite (Habs x s E K). reflexivity.
      * apply orb_false_r.
    + apply Hind.
Qed.

Lemma star_dead f (k : option ascii -> str -> bool) prev s :
  (forall p p' t, k p t = k p' t) ->
  (forall x t, f x = true -> k None (x :: t) = false) ->
  Re.star_loop f k prev s = k None (dropwhile f s).
Proof.
  intros Hind Hdead. apply star_absorb; [exact Hind|].
  intros x t Hx Hk. rewrite (Hdead x t Hx) in Hk. discriminate.
Qed.

(** ** The module's patterns *)

Lemma BLOCKED_TOKENS_wrap : BLOCKED_TOKENS = map wrap BLOCKED_KEYWORDS.
Proof. reflexivity. Qed.

Lemma words_shape w :
  In w WORDS ->
  w <> [] /\ forallb Char.isword w = true
  /\ Re.parse (wrap w) = Re.Boundary :: lits w ++ [Re.Boundary].
Proof.
  intros H. unfold WORDS in H. simpl in H.
  repeat (destruct H as [<-|H];
          [split; [discriminate | split; reflexivity]|]).
  destruct H.
Qed.

Lemma re_search_word w s :
  In w WORDS -> Re.search (wrap w) s Re.IGNORECASE = contains_word w s.
Proof.
  intros H. destruct (words_shape w H) as [Hne [Hw Hp]].
  unfold Re.search, Re.Pattern_search, Re.compile. simpl Re.atoms.
  simpl Re.ignorecase. rewrite Hp. now apply search_word.
Qed.

Lemma first_found_words ws s :
  incl ws WORDS ->
  first_found (map wrap ws) s
  = option_map wrap (find (fun w => contains_word w s) ws).
Proof.
  induction ws as [|w ws IH]; intros Hin; [reflexivity|].
  simpl. rewrite re_search_word by (apply Hin; now left).
  destruct (contains_word w s); [reflexivity|].
  apply IH. intros x Hx. apply Hin. now right.
Qed.

Lemma find_none_existsb {A} (f : A -> bool) l :
  find f l = None <-> existsb f l = false.
Proof.
  induction l as [|a l IH]; simpl; [tauto|].
  destruct (f a); simpl; [split; discriminate | exact IH].
Qed.

Lemma search_semicolon s :
  Re.Pattern_search SEMICOLON_RE s = existsb (Ascii.eqb ";") s.
Proof.
  unfold Re.Pattern_search. simpl Re.ignorecase.
  change (Re.atoms SEMICOLON_RE) with [Re.One (Re.Literal ";")].
  generalize (@None ascii).
  induction s as [|x s IH]; intros prev; [reflexivity|].
  simpl. rewrite IH, andb_true_r. now rewrite (Ascii.eqb_sym x).
Qed.

Lemma existsb_In_char c (s : str) : existsb (Ascii.eqb c) s = true <-> In c s.
Proof.
  rewrite existsb_exists. split.
  - intros [x [Hx E]]. apply Ascii.eqb_eq in E. now subst.
  - intros H. exists c. split; [exact H | apply Ascii.eqb_refl].
Qed.

(** [\d+\b] after a digit: the whole run of digits, then a non-word
    character or the end. *)
Lemma digits_then_boundary d s :
  Char.isdecimal d = true ->
  Re.star_loop Char.isdecimal
    (fun prev t => Re.at_boundary prev t && true) (Some d) s
  = nonword (hd_error (dropwhile Char.isdecimal s)).
Proof.
  revert d. induction s as [|x s IH]; intros d Hd; simpl.
  - unfold Re.at_boundary. simpl. now rewrite (decimal_is_word d Hd).
  - unfold Re.at_boundary at 2. simpl Re.word_opt.
    rewrite (decimal_is_word d Hd).
    destruct (Char.isdecimal x) eqn:E; simpl.
    + rewrite (IH x E), (decimal_is_word x E). simpl. apply orb_false_r.
    + unfold nonword. simpl. now rewrite andb_true_r.
Qed.

Lemma match_digits prev s :
  Re.match_here true [Re.Plus (Re.Category Re.CatDigit); Re.Boundary] prev s
  = digits_tail s.
Proof.
  unfold digits_tail. destruct s as [|d s]; [reflexivity|].
  simpl. destruct (Char.isdecimal d) eqn:E; [|reflexivity].
  simpl. now apply digits_then_boundary.
Qed.

Lemma match_limit_tail prev s :
  Re.match_here true
    [Re.Plus (Re.Category Re.CatSpace); Re.Plus (Re.Category Re.CatDigit);
     Re.Boundary] prev s
  = limit_tail s.
Proof.
  unfold limit_tail.
  destruct s as [|x s]; [reflexivity|].
  change (Re.match_here true
            [Re.Plus (Re.Category Re.CatSpace);
             Re.Plus (Re.Category Re.CatDigit); Re.Boundary] prev (x :: s))
    with (Char.isspace x
          && Re.star_loop Char.isspace
               (Re.match_here true
                  [Re.Plus (Re.Category Re.CatDigit); Re.Boundary])
               (Some x) s).
  simpl headed. simpl dropwhile.
  destruct (Char.isspace x) eqn:E; [|reflexivity]. rewrite !andb_true_l.
  rewrite star_dead.
  - apply (match_digits None).
  - intros p p' t. now rewrite (match_digits p), (match_digits p').
  - intros y t Hy. rewrite match_digits. unfold digits_tail. simpl.
    destruct (Char.isdecimal y) eqn:D; [|reflexivity].
    rewrite (decimal_not_space y D) in Hy. discriminate.
Qed.

Lemma LIMIT_RE_atoms :
  Re.atoms LIMIT_RE
  = Re.Boundary
      :: lits "LIMIT"
      ++ [Re.Plus (Re.Category Re.CatSpace);
          Re.Plus (Re.Category Re.CatDigit); Re.Boundary].
Proof. reflexivity. Qed.

Lemma match_limit prev s :
  Re.match_here true (Re.atoms LIMIT_RE) prev s = limit_here prev s.
Proof.
  rewrite LIMIT_RE_atoms.
  change (Re.match_here true (Re.Boundary :: ?p) prev s)
    with (Re.at_boundary prev s && Re.match_here true p prev s).
  rewrite match_lits, match_limit_tail. unfold limit_here.
  change (List.length (list_ascii_of_string "LIMIT")) with 5.
  destruct (prefix_ci "LIMIT" s) eqn:Hp.
  - unfold Re.at_boundary.
    assert (H0 : Re.word_opt (nth_error s 0) = true)
      by (apply (prefix_ci_word "LIMIT" s 0 Hp); [reflexivity | simpl; lia]).
    replace (hd_error s) with (nth_error s 0) by (destruct s; reflexivity).
    rewrite H0. unfold nonword.
    now destruct (Re.word_opt prev).
  - cbn [andb]. now rewrite !andb_false_r.
Qed.

Lemma search_limit s : Re.Pattern_search LIMIT_RE s = has_limit s.
Proof.
  unfold Re.Pattern_search, has_limit.
  change (Re.ignorecase LIMIT_RE) with true.
  apply search_from_ext. intros. apply match_limit.
Qed.

Lemma whole_word_head_class w s f :
  w <> [] -> forallb Char.isword w = true ->
  (forall c, f c = true -> Char.isword c = false) ->
  whole_word_head w s = true -> headed f s = false.
Proof.
  intros Hne Hw Hf H. apply andb_true_iff in H as [Hp _].
  assert (H0 : Re.word_opt (nth_error s 0) = true).
  { apply (prefix_ci_word w s 0 Hp Hw). destruct w; [now elim Hne | simpl; lia]. }
  destruct s as [|x s]; [reflexivity|]. simpl in *.
  destruct (f x) eqn:E; [|reflexivity]. rewrite (Hf x E) in H0. discriminate.
Qed.

Lemma paren_not_word c : is_paren c = true -> Char.isword c = false.
Proof. each_char c. Qed.

Lemma paren_not_space c : is_paren c = true -> Char.isspace c = false.
Proof. each_char c. Qed.

Lemma item_paren c : Re.item_matches true (Re.Literal "(") c = is_paren c.
Proof. each_char c. Qed.

Lemma star_loop_ext f g k prev s :
  (forall c, f c = g c) -> Re.star_loop f k prev s = Re.star_loop g k prev s.
Proof.
  intros H. revert prev. induction s as [|x s IH]; intros prev; simpl;
    [reflexivity|]. now rewrite H, IH.
Qed.

Lemma SELECT_RE_atoms :
  Re.atoms SELECT_RE
  = Re.Bol :: Re.Star (Re.Category Re.CatSpace) :: Re.Star (Re.Literal "(")
      :: Re.Star (Re.Category Re.CatSpace) :: lits "SELECT" ++ [Re.Boundary].
Proof. reflexivity. Qed.

(** [\s*SELECT\b] *)
Lemma match_spaces_word w prev s :
  w <> [] -> forallb Char.isword w = true ->
  Re.star_loop Char.isspace (Re.match_here true (lits w ++ [Re.Boundary]))
    prev s
  = whole_word_head w (dropwhile Char.isspace s).
Proof.
  intros Hne Hw. rewrite star_dead.
  - now apply match_word_tail.
  - intros p p' t. now rewrite !match_word_tail.
  - intros x t Hx. rewrite match_word_tail by assumption.
    destruct (prefix_ci w (x :: t) && nonword (nth_error (x :: t) (List.length w)))
      eqn:E; [|reflexivity].
    apply (whole_word_head_class w (x :: t) Char.isspace Hne Hw space_not_word)
      in E. simpl in E. congruence.
Qed.

Lemma match_select s :
  Re.Pattern_match SELECT_RE s = select_shape s.
Proof.
  unfold Re.Pattern_match. rewrite SELECT_RE_atoms.
  change (Re.ignorecase SELECT_RE) with true.
  set (k2 := Re.star_loop Char.isspace
               (Re.match_here true (lits "SELECT" ++ [Re.Boundary]))).
  set (k1 := Re.star_loop is_paren k2).
  assert (Hk2 : forall p t,
             k2 p t = whole_word_head "SELECT" (dropwhile Char.isspace t)).
  { intros p t. unfold k2. now apply match_spaces_word. }
  assert (Hk1 : forall p t,
             k1 p t = whole_word_head "SELECT"
                        (dropwhile Char.isspace (dropwhile is_paren t))).
  { intros p t. unfold k1. rewrite star_dead.
    - apply Hk2.
    - intros. now rewrite !Hk2.
    - intros x u Hx. rewrite Hk2.
      rewrite (dropwhile_id Char.isspace (x :: u))
        by (simpl; now apply paren_not_space).
      destruct (whole_word_head "SELECT" (x :: u)) eqn:E; [|reflexivity].
      apply (whole_word_head_class _ _ is_paren) in E;
        [simpl in E; congruence | discriminate | reflexivity
        | exact paren_not_word]. }
  change (Re.match_here true
            (Re.Bol :: Re.Star (Re.Category Re.CatSpace)
               :: Re.Star (Re.Literal "(") :: Re.Star (Re.Category Re.CatSpace)
               :: lits "SELECT" ++ [Re.Boundary]) None s)
    with (Re.star_loop Char.isspace
            (Re.star_loop (Re.item_matches true (Re.Literal "(")) k2) None s).
  assert (Hk : forall p t,
             Re.star_loop (Re.item_matches true (Re.Literal "(")) k2 p t
             = k1 p t).
  { intros p t. unfold k1. apply star_loop_ext, item_paren. }
  rewrite star_absorb.
  - rewrite Hk, Hk1. reflexivity.
  - intros p p' t. now rewrite !Hk, !Hk1.
  - intros x t Hx. rewrite !Hk, !Hk1.
    assert (Hxp : is_paren x = false).
    { destruct (is_paren x) eqn:P; [|reflexivity].
      now rewrite (paren_not_space x P) in Hx. }
    simpl dropwhile at 2. rewrite Hxp. simpl dropwhile at 1. rewrite Hx.
    intros E.
    assert (Hne : list_ascii_of_string "SELECT" <> []) by discriminate.
    assert (E1 := whole_word_head_class _ _ is_paren Hne
                    eq_refl paren_not_word E).
    rewrite (dropwhile_id is_paren _ E1), dropwhile_idem. exact E.
Qed.

Lemma match_with s :
  Re.match_ "^\s*WITH\b" s Re.IGNORECASE = with_shape s.
Proof.
  assert (Hp : Re.parse "^\s*WITH\b"
               = Re.Bol :: Re.Star (Re.Category Re.CatSpace)
                   :: lits "WITH" ++ [Re.Boundary]) by reflexivity.
  unfold Re.match_, Re.Pattern_match, Re.compile.
  cbn [Re.atoms Re.ignorecase]. rewrite Hp.
  change (Re.match_here Re.IGNORECASE
            (Re.Bol :: Re.Star (Re.Category Re.CatSpace)
               :: lits "WITH" ++ [Re.Boundary]) None s)
    with (Re.star_loop Char.isspace
            (Re.match_here true (lits "WITH" ++ [Re.Boundary])) None s).
  rewrite match_spaces_word; [reflexivity | discriminate | reflexivity].
Qed.

(** ** The gate, read on the trimmed string *)

Lemma sanitize_gate sql max_rows :
  basic_sanitize_and_enforce sql max_rows = gate (strip sql) max_rows.
Proof.
  unfold basic_sanitize_and_enforce, gate.
  assert (He : negb (truthy sql) || negb (truthy (strip sql))
               = negb (truthy (strip sql))).
  { destruct sql; reflexivity. }
  rewrite He. clear He.
  destruct (negb (truthy (strip sql))); [reflexivity|].
  rewrite search_semicolon.
  destruct (existsb (Ascii.eqb ";") (strip sql)); [reflexivity|].
  change (map (fun p : str => "\b" ++ p ++ "\b") SYSTEM_TABLES)
    with (map wrap SYSTEM_TABLES).
  rewrite first_found_words by (intros x Hx; apply in_or_app; now left).
  destruct (find (fun w => contains_word w (strip sql)) SYSTEM_TABLES) eqn:F.
  - assert (X : existsb (fun p => contains_word p (strip sql)) SYSTEM_TABLES
                = true).
    { destruct (existsb _ SYSTEM_TABLES) eqn:X; [reflexivity|].
      apply find_none_existsb in X. congruence. }
    rewrite X. reflexivity.
  - apply find_none_existsb in F. rewrite F. simpl option_map. cbv iota.
    rewrite BLOCKED_TOKENS_wrap.
    rewrite first_found_words by (intros x Hx; apply in_or_app; now right).
    destruct (find (fun w => contains_word w (strip sql)) BLOCKED_KEYWORDS);
      [reflexivity|].
    simpl option_map. cbv iota.
    rewrite match_select, match_with, search_limit, rstrip_strip.
    rewrite <- negb_orb.
    destruct (select_shape (strip sql) || with_shape (strip sql));
      [|reflexivity].
    simpl negb at 1. cbv iota. f_equal. now destruct (has_limit (strip sql)).
Qed.

(** ** Scanning a string that is extended at either end *)

Lemma scan_tail h t prev s :
  (forall p u, h p (u ++ t) = h p u) ->
  (forall p, scan h p t = scan h p []) ->
  scan h prev (s ++ t) = scan h prev s.
Proof.
  intros Hst Ht. revert prev.
  induction s as [|x s IH]; intros prev; [apply Ht|].
  simpl. rewrite IH. f_equal. apply (Hst prev (x :: s)).
Qed.

Lemma scan_dead h f prev s :
  (forall p x u, f x = true -> h p (x :: u) = false) ->
  (forall p, h p [] = false) ->
  forallb f s = true -> scan h prev s = false.
Proof.
  intros Hd He. revert prev.
  induction s as [|x s IH]; intros prev Hs; simpl.
  - now rewrite He.
  - simpl in Hs. apply andb_true_iff in Hs as [Hx Hs].
    now rewrite (Hd prev x s Hx), IH.
Qed.

Lemma scan_prev h p p' s :
  (forall q q' u, Re.word_opt q = Re.word_opt q' -> h q u = h q' u) ->
  Re.word_opt p = Re.word_opt p' -> scan h p s = scan h p' s.
Proof.
  intros Hh Hp. destruct s; simpl; now rewrite (Hh p p').
Qed.

Lemma scan_lead h ws prev s :
  (forall p x u, Char.isspace x = true -> h p (x :: u) = false) ->
  (forall q q' u, Re.word_opt q = Re.word_opt q' -> h q u = h q' u) ->
  forallb Char.isspace ws = true -> Re.word_opt prev = false ->
  scan h prev (ws ++ s) = scan h None s.
Proof.
  intros Hd Hh. revert prev.
  induction ws as [|x ws IH]; intros prev Hws Hp.
  - now apply scan_prev.
  - simpl in Hws. apply andb_true_iff in Hws as [Hx Hws].
    simpl. rewrite (Hd prev x _ Hx). simpl. apply IH; [exact Hws|].
    simpl. now apply space_not_word.
Qed.

Lemma scan_found h prev u x v :
  h (Some x) v = true -> scan h prev (u ++ x :: v) = true.
Proof.
  intros H. revert prev. induction u as [|y u IH]; intros prev; simpl.
  - destruct v; simpl; rewrite H; apply orb_true_r.
  - rewrite IH. apply orb_true_r.
Qed.

Lemma scan_strip h s :
  (forall p x u, Char.isspace x = true -> h p (x :: u) = false) ->
  (forall p, h p [] = false) ->
  (forall q q' u, Re.word_opt q = Re.word_opt q' -> h q u = h q' u) ->
  (forall t p u, forallb Char.isspace t = true -> h p (u ++ t) = h p u) ->
  scan h None (strip s) = scan h None s.
Proof.
  intros Hd He Hh Ht.
  destruct (strip_split s) as [l [r [Hl [Hr Hs]]]].
  rewrite Hs at 2. rewrite scan_lead by auto.
  symmetry. apply scan_tail.
  - intros p u. now apply Ht.
  - intros p. rewrite (scan_dead h Char.isspace p r) by auto.
    simpl. now rewrite He.
Qed.

(** ** Whole words and a tail that begins with a non-word character *)

Lemma prefix_ci_tail w s t :
  forallb Char.isword w = true -> nonword (hd_error t) = true ->
  prefix_ci w (s ++ t) = prefix_ci w s.
Proof.
  intros Hw Ht. revert s.
  induction w as [|a w IH]; intros s; [reflexivity|].
  simpl in Hw. apply andb_true_iff in Hw as [Ha Hw].
  destruct s as [|x s]; simpl.
  - destruct t as [|y t]; [reflexivity|].
    destruct (eqb_ci a y) eqn:E; [|reflexivity].
    apply eqb_ci_word in E. unfold nonword in Ht. simpl in Ht.
    rewrite <- E, Ha in Ht. discriminate.
  - now rewrite IH.
Qed.

Lemma prefix_ci_app w s t :
  prefix_ci w s = true -> prefix_ci w (s ++ t) = true.
Proof.
  revert s. induction w as [|a w IH]; intros s H; [reflexivity|].
  destruct s as [|x s]; [discriminate|]. simpl in *.
  apply andb_true_iff in H as [Hx H]. now rewrite Hx, IH.
Qed.

Lemma nth_after_tail w s t :
  prefix_ci w s = true -> nonword (hd_error t) = true ->
  nonword (nth_error (s ++ t) (List.length w))
  = nonword (nth_error s (List.length w)).
Proof.
  intros Hp Ht. revert s Hp.
  induction w as [|a w IH]; intros s Hp.
  - destruct s as [|x s]; [|reflexivity].
    destruct t as [|y t]; [reflexivity | exact Ht].
  - destruct s as [|x s]; [discriminate|]. simpl in Hp.
    apply andb_true_iff in Hp as [_ Hp]. simpl. now apply IH.
Qed.

Lemma whole_word_head_tail w s t :
  forallb Char.isword w = true -> nonword (hd_error t) = true ->
  whole_word_head w (s ++ t) = whole_word_head w s.
Proof.
  intros Hw Ht. unfold whole_word_head. rewrite prefix_ci_tail by assumption.
  destruct (prefix_ci w s) eqn:Hp; [|reflexivity].
  simpl. now apply nth_after_tail.
Qed.

Lemma word_here_head w prev s :
  word_here w prev s = nonword prev && whole_word_head w s.
Proof. unfold word_here, whole_word_head. now rewrite andb_assoc. Qed.

Lemma word_here_tail w t p u :
  forallb Char.isword w = true -> nonword (hd_error t) = true ->
  word_here w p (u ++ t) = word_here w p u.
Proof.
  intros Hw Ht. rewrite !word_here_head.
  now rewrite whole_word_head_tail.
Qed.

Lemma word_here_nil w p : w <> [] -> word_here w p [] = false.
Proof.
  intros H. destruct w; [now elim H|]. unfold word_here. simpl.
  now rewrite andb_false_r.
Qed.

Lemma word_here_class w f p x u :
  w <> [] -> forallb Char.isword w = true ->
  (forall c, f c = true -> Char.isword c = false) ->
  f x = true -> word_here w p (x :: u) = false.
Proof.
  intros Hne Hw Hf Hx. rewrite word_here_head.
  destruct (whole_word_head w (x :: u)) eqn:E; [|apply andb_false_r].
  apply (whole_word_head_class w _ f Hne Hw Hf) in E. simpl in E. congruence.
Qed.

Lemma word_here_prev w q q' u :
  Re.word_opt q = Re.word_opt q' -> word_here w q u = word_here w q' u.
Proof. intros H. unfold word_here, nonword. now rewrite H. Qed.

Lemma hd_spaces_nonword t :
  forallb Char.isspace t = true -> nonword (hd_error t) = true.
Proof.
  destruct t as [|x t]; [reflexivity|]. simpl. intros H.
  apply andb_true_iff in H as [Hx _]. unfold nonword. simpl.
  now rewrite (space_not_word x Hx).
Qed.

(** Trimming does not change which whole words a string contains. *)
Lemma contains_word_strip w s :
  w <> [] -> forallb Char.isword w = true ->
  contains_word w (strip s) = contains_word w s.
Proof.
  intros Hne Hw. unfold contains_word, occurs_from. apply scan_strip.
  - intros p x u Hx. now apply (word_here_class w Char.isspace p x u Hne Hw space_not_word).
  - intros p. now apply word_here_nil.
  - apply word_here_prev.
  - intros t p u Ht. apply word_here_tail; [exact Hw|].
    now apply hd_spaces_nonword.
Qed.

(** ** LIMIT clauses and a tail that begins with a non-word character *)

Lemma prefix_ci_length w s :
  prefix_ci w s = true -> List.length w <= List.length s.
Proof.
  revert s. induction w as [|a w IH]; intros s H; simpl; [lia|].
  destruct s as [|x s]; [discriminate|]. simpl in *.
  apply andb_true_iff in H as [_ H]. apply IH in H. lia.
Qed.

Lemma nonword_not_decimal t :
  nonword (hd_error t) = true -> headed Char.isdecimal t = false.
Proof.
  destruct t as [|x t]; [reflexivity|]. unfold nonword. simpl. intros H.
  destruct (Char.isdecimal x) eqn:E; [|reflexivity].
  now rewrite (decimal_is_word x E) in H.
Qed.

Lemma dropwhile_nil_all f (s : str) : dropwhile f s = [] -> forallb f s = true.
Proof.
  intros H. destruct (dropwhile_split f s) as [pre [Hp Hs]].
  rewrite H, app_nil_r in Hs. now subst.
Qed.

Lemma headed_app f (s t : str) : s <> [] -> headed f (s ++ t) = headed f s.
Proof. destruct s; [intros H; now elim H | reflexivity]. Qed.

Lemma digits_tail_app d t :
  d <> [] -> nonword (hd_error t) = true ->
  digits_tail (d ++ t) = digits_tail d.
Proof.
  intros Hd Ht. unfold digits_tail. rewrite headed_app by exact Hd.
  destruct (headed Char.isdecimal d) eqn:H; [|reflexivity]. simpl.
  destruct (dropwhile Char.isdecimal d) as [|y e] eqn:E.
  - rewrite (dropwhile_all _ d t (dropwhile_nil_all _ _ E)).
    rewrite dropwhile_id by now apply nonword_not_decimal.
    now rewrite Ht.
  - rewrite dropwhile_keep by (rewrite E; discriminate).
    now rewrite E.
Qed.

Lemma limit_tail_app r t :
  nonword (hd_error t) = true ->
  headed Char.isdecimal (dropwhile Char.isspace t) = false ->
  limit_tail (r ++ t) = limit_tail r.
Proof.
  intros Ht Hd. unfold limit_tail.
  destruct r as [|x r].
  - simpl. unfold digits_tail. rewrite Hd. simpl. apply andb_false_r.
  - rewrite headed_app by discriminate.
    destruct (headed Char.isspace (x :: r)) eqn:H; [|reflexivity].
    rewrite !andb_true_l.
    destruct (dropwhile Char.isspace (x :: r)) as [|y e] eqn:E.
    + rewrite (dropwhile_all _ (x :: r) t (dropwhile_nil_all _ _ E)).
      unfold digits_tail. now rewrite Hd.
    + rewrite dropwhile_keep by (rewrite E; discriminate).
      rewrite E. apply digits_tail_app; [discriminate | exact Ht].
Qed.

Lemma limit_here_tail t p u :
  nonword (hd_error t) = true ->
  headed Char.isdecimal (dropwhile Char.isspace t) = false ->
  limit_here p (u ++ t) = limit_here p u.
Proof.
  intros Ht Hd. unfold limit_here.
  rewrite prefix_ci_tail by (reflexivity || exact Ht).
  destruct (prefix_ci "LIMIT" u) eqn:Hp;
    [|now rewrite !andb_false_r].
  apply prefix_ci_length in Hp.
  change (List.length (list_ascii_of_string "LIMIT")) with 5 in Hp.
  rewrite skipn_app. replace (5 - List.length u) with 0 by lia.
  simpl skipn at 2. now rewrite limit_tail_app.
Qed.

Lemma limit_here_space p x u :
  Char.isspace x = true -> limit_here p (x :: u) = false.
Proof.
  intros Hx. unfold limit_here. simpl prefix_ci.
  destruct (eqb_ci "L" x) eqn:E.
  - apply eqb_ci_space in E. rewrite Hx in E. discriminate.
  - simpl. now rewrite andb_false_r.
Qed.

Lemma limit_here_nil p : limit_here p [] = false.
Proof. unfold limit_here. simpl. now rewrite andb_false_r. Qed.

Lemma limit_here_prev q q' u :
  Re.word_opt q = Re.word_opt q' -> limit_here q u = limit_here q' u.
Proof. intros H. unfold limit_here, nonword. now rewrite H. Qed.

(** Trimming does not change whether a string contains a LIMIT clause. *)
Lemma has_limit_strip s : has_limit (strip s) = has_limit s.
Proof.
  unfold has_limit, limit_from. apply scan_strip.
  - intros. now apply limit_here_space.
  - apply limit_here_nil.
  - apply limit_here_prev.
  - intros t p u Ht. apply limit_here_tail.
    + now apply hd_spaces_nonword.
    + rewrite <- (app_nil_r t). now rewrite (dropwhile_all _ t [] Ht).
Qed.

Lemma semicolon_strip s :
  existsb (Ascii.eqb ";") (strip s) = existsb (Ascii.eqb ";") s.
Proof.
  apply eq_true_iff_eq. rewrite !existsb_In_char. split.
  - apply strip_incl.
  - intros H. now apply strip_keeps.
Qed.

(** ** [str(n)] *)

Lemma uint_digits d :
  forallb Char.isdecimal (list_ascii_of_string (NilEmpty.string_of_uint d))
  = true.
Proof. induction d; simpl; auto. Qed.

Lemma uint_digits_zero d :
  forallb Char.isdecimal (list_ascii_of_string (NilZero.string_of_uint d))
  = true
  /\ list_ascii_of_string (NilZero.string_of_uint d) <> [].
Proof.
  destruct d; simpl; (split; [try reflexivity; apply uint_digits | discriminate]).
Qed.

Lemma str_of_int_chars n : forallb digit_or_minus (str_of_int n) = true.
Proof.
  assert (H : forall (l : str),
             forallb Char.isdecimal l = true -> forallb digit_or_minus l = true).
  { intros l. rewrite !forallb_forall. intros Hl x Hx.
    unfold digit_or_minus. now rewrite (Hl x Hx). }
  unfold str_of_int. destruct (Z.to_int n) as [d|d]; simpl.
  - apply H, uint_digits_zero.
  - apply H, uint_digits_zero.
Qed.

Lemma str_of_int_nonneg n :
  (0 <= n)%Z ->
  forallb Char.isdecimal (str_of_int n) = true /\ str_of_int n <> [].
Proof.
  intros Hn. unfold str_of_int.
  destruct n as [|p|p]; [| |lia]; cbn [Z.to_int NilZero.string_of_int];
    apply uint_digits_zero.
Qed.

(** ** The appended text *)

Lemma limit_text ds :
  " LIMIT " ++ ds
  = " "%char :: "L"%char :: "I"%char :: "M"%char :: "I"%char :: "T"%char
      :: " "%char :: ds.
Proof. reflexivity. Qed.

Lemma tolower_digit_or_minus x :
  digit_or_minus x = true -> Char.tolower x = x.
Proof. each_char x. Qed.

Lemma words_alpha w :
  In w WORDS ->
  starts_alpha w = true /\ forall t, prefix_ci w ("L"%char :: "I"%char :: t) = false.
Proof.
  intros H. unfold WORDS in H. simpl in H.
  repeat (destruct H as [<-|H]; [split; [reflexivity | intros t; reflexivity]|]).
  destruct H.
Qed.

Lemma word_here_prefix w p s : prefix_ci w s = false -> word_here w p s = false.
Proof. intros H. unfold word_here. rewrite H. now rewrite andb_false_r. Qed.

Lemma word_here_after_word w p s :
  Re.word_opt p = true -> word_here w p s = false.
Proof. intros H. unfold word_here, nonword. now rewrite H. Qed.

Lemma word_here_digit w p x u :
  starts_alpha w = true -> digit_or_minus x = true ->
  word_here w p (x :: u) = false.
Proof.
  intros Hw Hx. apply word_here_prefix.
  destruct w as [|a w]; [discriminate|]. simpl.
  destruct (eqb_ci a x) eqn:E; [|reflexivity].
  unfold eqb_ci in E. apply Ascii.eqb_eq in E.
  rewrite (tolower_digit_or_minus x Hx) in E.
  unfold starts_alpha in Hw. simpl in Hw. rewrite E, Hx in Hw. discriminate.
Qed.

Lemma scan_cons_false h p x t :
  h p (x :: t) = false -> scan h (Some x) t = false ->
  scan h p (x :: t) = false.
Proof. intros H1 H2. simpl. now rewrite H1, H2. Qed.

(** No system table and no blocked keyword begins inside the appended
    text. *)
Lemma words_not_in_limit_text w p ds :
  In w WORDS -> forallb digit_or_minus ds = true ->
  scan (word_here w) p (" LIMIT " ++ ds) = false.
Proof.
  intros Hin Hds.
  destruct (words_shape w Hin) as [Hne [Hw _]].
  destruct (words_alpha w Hin) as [Ha Hl].
  assert (Hsp : forall q u, word_here w q (" "%char :: u) = false).
  { intros q u.
    now apply (word_here_class w Char.isspace q " "%char u Hne Hw space_not_word). }
  rewrite limit_text.
  apply scan_cons_false; [apply Hsp|].
  apply scan_cons_false; [apply word_here_prefix, Hl|].
  do 4 (apply scan_cons_false; [now apply word_here_after_word|]).
  apply scan_cons_false; [apply Hsp|].
  apply (scan_dead _ digit_or_minus).
  - intros q x u Hx. now apply word_here_digit.
  - intros q. now apply word_here_nil.
  - exact Hds.
Qed.

Lemma contains_word_append w c ds :
  In w WORDS -> forallb digit_or_minus ds = true ->
  contains_word w (c ++ " LIMIT " ++ ds) = contains_word w c.
Proof.
  intros Hin Hds. destruct (words_shape w Hin) as [Hne [Hw _]].
  unfold contains_word, occurs_from. apply scan_tail.
  - intros p u. apply word_here_tail; [exact Hw | reflexivity].
  - intros p. rewrite words_not_in_limit_text by assumption.
    simpl. now rewrite word_here_nil.
Qed.

Lemma semicolon_digit_or_minus ds :
  forallb digit_or_minus ds = true -> existsb (Ascii.eqb ";") ds = false.
Proof.
  induction ds as [|x ds IH]; [reflexivity|]. simpl. intros H.
  apply andb_true_iff in H as [Hx H]. rewrite (IH H), orb_false_r.
  revert Hx. each_char x.
Qed.

Lemma semicolon_append c ds :
  forallb digit_or_minus ds = true ->
  existsb (Ascii.eqb ";") (c ++ " LIMIT " ++ ds) = existsb (Ascii.eqb ";") c.
Proof.
  intros H. rewrite existsb_app, limit_text. simpl.
  rewrite (semicolon_digit_or_minus ds H). apply orb_false_r.
Qed.

Lemma decimal_digit_or_minus (l : str) :
  forallb Char.isdecimal l = true -> forallb digit_or_minus l = true.
Proof.
  rewrite !forallb_forall. intros Hl x Hx.
  unfold digit_or_minus. now rewrite (Hl x Hx).
Qed.

(** With digits appended, the appended text is a LIMIT clause. *)
Lemma limit_here_text ds :
  forallb Char.isdecimal ds = true -> ds <> [] ->
  limit_here (Some " "%char) ("LIMIT " ++ ds) = true.
Proof.
  intros Hds Hne. unfold limit_here.
  change (skipn 5 ("LIMIT " ++ ds)) with (" "%char :: ds).
  change (prefix_ci "LIMIT" ("LIMIT " ++ ds)) with true.
  change (nonword (Some " "%char)) with true.
  unfold limit_tail.
  change (headed Char.isspace (" "%char :: ds)) with true.
  change (dropwhile Char.isspace (" "%char :: ds))
    with (dropwhile Char.isspace ds).
  assert (Hh : headed Char.isdecimal ds = true).
  { destruct ds as [|d ds]; [now elim Hne|]. simpl in *.
    now apply andb_true_iff in Hds as [Hd _]. }
  assert (Hs : headed Char.isspace ds = false).
  { destruct ds as [|d ds]; [reflexivity|]. simpl in *.
    now apply decimal_not_space. }
  rewrite (dropwhile_id _ _ Hs). unfold digits_tail. rewrite Hh.
  rewrite <- (app_nil_r ds), (dropwhile_all _ ds [] Hds).
  reflexivity.
Qed.

Lemma has_limit_append c ds :
  forallb Char.isdecimal ds = true -> ds <> [] ->
  has_limit (c ++ " LIMIT " ++ ds) = true.
Proof.
  intros Hds Hne. unfold has_limit, limit_from.
  change (" LIMIT " ++ ds) with (" "%char :: ("LIMIT " ++ ds)).
  apply scan_found. now apply limit_here_text.
Qed.

(** ** The SELECT/WITH shapes *)

Lemma whole_word_head_nonempty w s :
  w <> [] -> whole_word_head w s = true -> s <> [].
Proof.
  intros Hne H ->. destruct w; [now elim Hne | discriminate].
Qed.

Lemma select_shape_append c t :
  nonword (hd_error t) = true ->
  select_shape c = true -> select_shape (c ++ t) = true.
Proof.
  unfold select_shape. intros Ht H.
  assert (Hne : list_ascii_of_string "SELECT" <> []) by discriminate.
  assert (H3 := whole_word_head_nonempty _ _ Hne H).
  assert (H2 : dropwhile is_paren (dropwhile Char.isspace c) <> [])
    by (intros E; rewrite E in H3; now apply H3).
  assert (H1 : dropwhile Char.isspace c <> [])
    by (intros E; rewrite E in H2; now apply H2).
  rewrite (dropwhile_keep _ c t H1), (dropwhile_keep _ _ t H2),
    (dropwhile_keep _ _ t H3).
  change (whole_word_head "SELECT"
            (dropwhile Char.isspace
               (dropwhile is_paren (dropwhile Char.isspace c)) ++ t) = true).
  rewrite whole_word_head_tail; [exact H | reflexivity | exact Ht].
Qed.

Lemma with_shape_append c t :
  nonword (hd_error t) = true ->
  with_shape c = true -> with_shape (c ++ t) = true.
Proof.
  unfold with_shape. intros Ht H.
  assert (Hne : list_ascii_of_string "WITH" <> []) by discriminate.
  assert (H1 := whole_word_head_nonempty _ _ Hne H).
  rewrite (dropwhile_keep _ c t H1).
  change (whole_word_head "WITH" (dropwhile Char.isspace c ++ t) = true).
  rewrite whole_word_head_tail; [exact H | reflexivity | exact Ht].
Qed.

Lemma dropwhile_weaken (f g : ascii -> bool) s :
  (forall c, f c = true -> g c = true) ->
  dropwhile g (dropwhile f s) = dropwhile g s.
Proof.
  intros H. destruct (dropwhile_split f s) as [pre [Hp Hs]].
  rewrite Hs at 2. symmetry. apply dropwhile_all.
  rewrite forallb_forall in *. auto.
Qed.

(** What the pattern accepts begins with SELECT once leading parentheses and
    white space are stripped. *)
Lemma select_shape_spec s : select_shape s = true -> spec_select_start s = true.
Proof.
  unfold select_shape, spec_select_start. intros H.
  set (g := fun c => Char.isspace c || is_paren c).
  set (b := dropwhile Char.isspace
              (dropwhile is_paren (dropwhile Char.isspace s))) in *.
  assert (Hb : dropwhile g s = b).
  { rewrite <- (dropwhile_weaken Char.isspace g s)
      by (intros c Hc; unfold g; now rewrite Hc).
    rewrite <- (dropwhile_weaken is_paren g)
      by (intros c Hc; unfold g; rewrite Hc; apply orb_true_r).
    rewrite <- (dropwhile_weaken Char.isspace g)
      by (intros c Hc; unfold g; now rewrite Hc).
    fold b. apply dropwhile_id.
    assert (Hne : list_ascii_of_string "SELECT" <> []) by discriminate.
    assert (Hw : forall c, g c = true -> Char.isword c = false).
    { intros c Hc. unfold g in Hc. apply orb_true_iff in Hc as [Hc|Hc];
        [now apply space_not_word | now apply paren_not_word]. }
    exact (whole_word_head_class _ _ g Hne eq_refl Hw H). }
  rewrite Hb. now apply andb_true_iff in H as [H _].
Qed.

Lemma with_shape_spec s :
  headed Char.isspace s = false -> with_shape s = true ->
  spec_with_start s = true.
Proof.
  unfold with_shape, spec_with_start. intros Hs H.
  rewrite (dropwhile_id _ _ Hs) in H. now apply andb_true_iff in H as [H _].
Qed.

(** ** What an accepted query went through *)

Lemma gate_return c n out :
  gate c n = Return out ->
  truthy c = true
  /\ existsb (Ascii.eqb ";") c = false
  /\ existsb (fun p => contains_word p c) SYSTEM_TABLES = false
  /\ existsb (fun k => contains_word k c) BLOCKED_KEYWORDS = false
  /\ select_shape c || with_shape c = true
  /\ out = limit_enforced c n.
Proof.
  unfold gate, limit_enforced.
  destruct (truthy c); [|discriminate]. simpl negb. cbv iota.
  destruct (existsb (Ascii.eqb ";") c); [discriminate|].
  destruct (existsb (fun p => contains_word p c) SYSTEM_TABLES);
    [discriminate|].
  destruct (find (fun k => contains_word k c) BLOCKED_KEYWORDS) eqn:F;
    [discriminate|].
  apply find_none_existsb in F.
  destruct (select_shape c || with_shape c); [|discriminate].
  intros H. injection H as <-. repeat split; assumption || reflexivity.
Qed.

Lemma gate_accept c n :
  truthy c = true ->
  existsb (Ascii.eqb ";") c = false ->
  existsb (fun p => contains_word p c) SYSTEM_TABLES = false ->
  existsb (fun k => contains_word k c) BLOCKED_KEYWORDS = false ->
  select_shape c || with_shape c = true ->
  gate c n = Return (limit_enforced c n).
Proof.
  intros H1 H2 H3 H4 H5. unfold gate. rewrite H1, H2, H3, H5.
  apply find_none_existsb in H4. now rewrite H4.
Qed.

Lemma existsb_words_ext (f g : str -> bool) ws :
  incl ws WORDS -> (forall w, In w WORDS -> f w = g w) ->
  existsb f ws = existsb g ws.
Proof.
  intros Hin H. induction ws as [|w ws IH]; [reflexivity|].
  simpl. rewrite H by (apply Hin; now left).
  rewrite IH; [reflexivity|]. intros x Hx. apply Hin. now right.
Qed.

Lemma find_words_ext (f g : str -> bool) ws :
  incl ws WORDS -> (forall w, In w WORDS -> f w = g w) ->
  find f ws = find g ws.
Proof.
  intros Hin H. induction ws as [|w ws IH]; [reflexivity|].
  simpl. rewrite H by (apply Hin; now left).
  rewrite IH; [reflexivity|]. intros x Hx. apply Hin. now right.
Qed.

Lemma incl_tables : incl SYSTEM_TABLES WORDS.
Proof. intros x Hx. apply in_or_app. now left. Qed.

Lemma incl_keywords : incl BLOCKED_KEYWORDS WORDS.
Proof. intros x Hx. apply in_or_app. now right. Qed.

Lemma word_strip w s :
  In w WORDS -> contains_word w (strip s) = contains_word w s.
Proof.
  intros H. destruct (words_shape w H) as [Hne [Hw _]].
  now apply contains_word_strip.
Qed.

Lemma tables_strip s :
  existsb (fun p => contains_word p (strip s)) SYSTEM_TABLES
  = existsb (fun p => contains_word p s) SYSTEM_TABLES.
Proof.
  apply existsb_words_ext; [apply incl_tables|].
  intros w Hw. now apply word_strip.
Qed.

Lemma keywords_strip s :
  find (fun k => contains_word k (strip s)) BLOCKED_KEYWORDS
  = find (fun k => contains_word k s) BLOCKED_KEYWORDS.
Proof.
  apply find_words_ext; [apply incl_keywords|].
  intros w Hw. now apply word_strip.
Qed.

Lemma semicolon_not_space : Char.isspace ";"%char = false.
Proof. reflexivity. Qed.

Lemma sanitize_stripped c n :
  basic_sanitize_and_enforce (strip c) n = basic_sanitize_and_enforce c n.
Proof. now rewrite !sanitize_gate, strip_idem. Qed.

Lemma strip_append c ds :
  truthy (strip c) = true ->
  forallb Char.isdecimal ds = true -> ds <> [] ->
  strip (strip c ++ " LIMIT " ++ ds) = strip c ++ " LIMIT " ++ ds.
Proof.
  intros Hc Hds Hne. apply strip_id.
  - rewrite headed_app by (intros E; rewrite E in Hc; discriminate).
    apply strip_head.
  - rewrite !rev_app_distr.
    assert (Hr : rev ds <> []).
    { intros E. apply Hne. rewrite <- (rev_involutive ds), E. reflexivity. }
    rewrite <- app_assoc, headed_app by exact Hr.
    destruct (rev ds) as [|d r] eqn:E; [now elim Hr|]. simpl.
    apply decimal_not_space.
    rewrite forallb_forall in Hds. apply Hds, in_rev. rewrite E. now left.
Qed.

(** ** The direct readings, spelled out *)

Lemma scan_spec h prev s :
  scan h prev s = true
  <-> exists u v,
        s = u ++ v /\ h (fold_left (fun _ c => Some c) u prev) v = true.
Proof.
  revert prev. induction s as [|x s IH]; intros prev.
  - simpl. rewrite orb_false_r. split.
    + intros H. exists [], []. now split.
    + intros (u & v & E & H). symmetry in E.
      apply app_eq_nil in E as [-> ->]. exact H.
  - simpl. rewrite orb_true_iff, IH. split.
    + intros [H|(u & v & -> & H)].
      * exists [], (x :: s). now split.
      * exists (x :: u), v. now split.
    + intros (u & v & E & H). destruct u as [|y u].
      * left. simpl in *. now subst v.
      * right. simpl in E. injection E as -> ->. now exists u, v.
Qed.

Lemma prefix_ci_spec w s :
  prefix_ci w s = true
  <-> exists m v, s = m ++ v /\ map Char.tolower w = map Char.tolower m.
Proof.
  revert s. induction w as [|a w IH]; intros s.
  - simpl. split; [|reflexivity]. intros _. exists [], s. now split.
  - destruct s as [|x s]; simpl.
    + split; [discriminate|]. intros (m & v & E & H).
      symmetry in E. apply app_eq_nil in E as [-> _]. discriminate.
    + rewrite andb_true_iff, IH. unfold eqb_ci. rewrite Ascii.eqb_eq. split.
      * intros (Hx & m & v & -> & H). exists (x :: m), v.
        split; [reflexivity|]. simpl. now rewrite Hx, H.
      * intros (m & v & E & H). destruct m as [|y m]; [discriminate|].
        simpl in E, H. injection E as -> ->. injection H as Hx H.
        split; [exact Hx|]. now exists m, v.
Qed.

Lemma nth_error_after (m v : str) n :
  List.length m = n -> nth_error (m ++ v) n = hd_error v.
Proof.
  intros <-. rewrite nth_error_app2 by lia. rewrite Nat.sub_diag.
  now destruct v.
Qed.

(** A string contains the word: it is a stretch of the string equal to the
    word up to letter case, with no word character next to it on either
    side. *)
Lemma contains_word_spec w s :
  contains_word w s = true
  <-> exists u m v,
        s = u ++ m ++ v
        /\ map Char.tolower w = map Char.tolower m
        /\ nonword (before u) = true
        /\ nonword (hd_error v) = true.
Proof.
  unfold contains_word, occurs_from. rewrite scan_spec. split.
  - intros (u & r & -> & H). unfold word_here in H.
    apply andb_true_iff in H as [H Hv]. apply andb_true_iff in H as [Hu Hp].
    apply prefix_ci_spec in Hp as (m & v & -> & Hm).
    exists u, m, v. repeat split; try assumption.
    rewrite nth_error_after in Hv; [exact Hv|].
    apply (f_equal (@List.length _)) in Hm. now rewrite !length_map in Hm.
  - intros (u & m & v & -> & Hm & Hu & Hv). exists u, (m ++ v).
    split; [reflexivity|]. unfold word_here. fold (before u). rewrite Hu.
    assert (Hp : prefix_ci w (m ++ v) = true)
      by (apply prefix_ci_spec; now exists m, v).
    rewrite Hp, nth_error_after; [now rewrite Hv|].
    apply (f_equal (@List.length _)) in Hm. now rewrite !length_map in Hm.
Qed.

Lemma headed_split f (r : str) :
  headed f r = true ->
  exists pre, pre <> [] /\ forallb f pre = true /\ r = pre ++ dropwhile f r.
Proof.
  intros H. destruct (dropwhile_split f r) as [pre [Hp Hr]].
  exists pre. repeat split; try assumption.
  intros ->. simpl in Hr. rewrite Hr, dropwhile_headed in H. discriminate.
Qed.

Lemma headed_forallb f (l t : str) :
  l <> [] -> forallb f l = true -> headed f (l ++ t) = true.
Proof.
  destruct l as [|x l]; [intros H; now elim H|]. simpl. intros _ H.
  now apply andb_true_iff in H as [H _].
Qed.

Lemma limit_tail_spec r :
  limit_tail r = true
  <-> exists ws ds v,
        r = ws ++ ds ++ v
        /\ ws <> [] /\ forallb Char.isspace ws = true
        /\ ds <> [] /\ forallb Char.isdecimal ds = true
        /\ nonword (hd_error v) = true.
Proof.
  unfold limit_tail, digits_tail. split.
  - intros H. apply andb_true_iff in H as [Hs H].
    apply andb_true_iff in H as [Hd Hv].
    destruct (headed_split _ _ Hs) as (ws & Hne & Hws & Er).
    destruct (headed_split _ _ Hd) as (ds & Hne' & Hds & Ed).
    exists ws, ds, (dropwhile Char.isdecimal (dropwhile Char.isspace r)).
    repeat split; try assumption. now rewrite <- Ed.
  - intros (ws & ds & v & -> & Hne & Hws & Hne' & Hds & Hv).
    rewrite (headed_forallb _ ws _ Hne Hws), (dropwhile_all _ ws _ Hws).
    assert (Hs : headed Char.isspace (ds ++ v) = false).
    { destruct ds as [|d ds]; [now elim Hne'|]. simpl in *.
      apply andb_true_iff in Hds as [Hd _]. now apply decimal_not_space. }
    rewrite (dropwhile_id _ _ Hs), (headed_forallb _ ds _ Hne' Hds).
    rewrite (dropwhile_all _ ds _ Hds).
    rewrite (dropwhile_id _ v) by now apply nonword_not_decimal.
    now rewrite Hv.
Qed.

(** A string contains a LIMIT clause: the whole word LIMIT in any letter
    case, white space, and a run of decimal digits with no word character
    after it. *)
Lemma has_limit_spec s :
  has_limit s = true
  <-> exists u m ws ds v,
        s = u ++ m ++ ws ++ ds ++ v
        /\ map Char.tolower "LIMIT" = map Char.tolower m
        /\ nonword (before u) = true
        /\ ws <> [] /\ forallb Char.isspace ws = true
        /\ ds <> [] /\ forallb Char.isdecimal ds = true
        /\ nonword (hd_error v) = true.
Proof.
  unfold has_limit, limit_from. rewrite scan_spec. split.
  - intros (u & r & -> & H). unfold limit_here in H.
    apply andb_true_iff in H as [H Ht]. apply andb_true_iff in H as [Hu Hp].
    apply prefix_ci_spec in Hp as (m & r' & -> & Hm).
    assert (Hl : List.length m = 5).
    { apply (f_equal (@List.length _)) in Hm. now rewrite !length_map in Hm. }
    rewrite skipn_app, Hl, Nat.sub_diag, skipn_all2 in Ht by lia.
    simpl in Ht. apply limit_tail_spec in Ht
      as (ws & ds & v & -> & H1 & H2 & H3 & H4 & H5).
    exists u, m, ws, ds, v. repeat split; assumption.
  - intros (u & m & ws & ds & v & -> & Hm & Hu & H1 & H2 & H3 & H4 & H5).
    exists u, (m ++ ws ++ ds ++ v). split; [reflexivity|].
    unfold limit_here. fold (before u). rewrite Hu.
    assert (Hp : prefix_ci "LIMIT" (m ++ ws ++ ds ++ v) = true)
      by (apply prefix_ci_spec; now exists m, (ws ++ ds ++ v)).
    assert (Hl : List.length m = 5).
    { apply (f_equal (@List.length _)) in Hm. now rewrite !length_map in Hm. }
    rewrite Hp, skipn_app, Hl, Nat.sub_diag, skipn_all2 by lia. simpl.
    apply limit_tail_spec. exists ws, ds, v. repeat split; assumption.
Qed.

Lemma sanitize_return sql n out :
  basic_sanitize_and_enforce sql n = Return out ->
  out = if has_limit sql then strip sql
        else strip sql ++ " LIMIT " ++ str_of_int n.
Proof.
  rewrite sanitize_gate. intros H.
  apply gate_return in H as (_ & _ & _ & _ & _ & ->).
  unfold limit_enforced. now rewrite has_limit_strip.
Qed.

Lemma sanitize_accept sql n :
  passes_earlier_checks sql = true ->
  select_shape (strip sql) || with_shape (strip sql) = true ->
  basic_sanitize_and_enforce sql n
  = Return (if has_limit sql then strip sql
            else strip sql ++ " LIMIT " ++ str_of_int n).
Proof.
  unfold passes_earlier_checks. intros H S.
  apply andb_true_iff in H as [H H4]. apply andb_true_iff in H as [H H3].
  apply andb_true_iff in H as [H1 H2].
  apply negb_true_iff in H2, H3, H4.
  rewrite sanitize_gate. unfold gate.
  rewrite semicolon_strip, tables_strip, keywords_strip, H1, H2, H3.
  apply find_none_existsb in H4. rewrite H4, S. simpl negb. cbv iota.
  now rewrite has_limit_strip.
Qed.

(** * The claims about the gate *)

(** C1.  An input with a semicolon anywhere is rejected as multiple
    statements, whatever stands before or after the semicolon; the rejection
    is never the blocked-keyword one, the keyword scan is not reached. *)
Theorem semicolon_rejected (sql : str) (max_rows : Z) :
  In ";"%char sql ->
  basic_sanitize_and_enforce sql max_rows = Raise MULTIPLE_STATEMENTS
  /\ forall token,
       basic_sanitize_and_enforce sql max_rows <> Raise (BLOCKED_KEYWORD token).
Proof.
  intros H.
  assert (Hs : In ";"%char (strip sql))
    by (apply strip_keeps; [exact H | reflexivity]).
  assert (E : basic_sanitize_and_enforce sql max_rows
              = Raise MULTIPLE_STATEMENTS).
  { rewrite sanitize_gate. unfold gate.
    rewrite (truthy_In _ _ Hs). simpl negb. cbv iota.
    apply existsb_In_char in Hs. now rewrite Hs. }
  split; [exact E|]. intros token. rewrite E. discriminate.
Qed.

Lemma semicolon_rejected_witness :
  basic_sanitize_and_enforce
    "select name from customers; DROP TABLE customers" 1000
  = Raise MULTIPLE_STATEMENTS.
Proof.
  apply (semicolon_rejected
           "select name from customers; DROP TABLE customers" 1000).
  simpl. repeat first [left; reflexivity | right].
Defined.

(** C3.  In an input without semicolon and without system table, the first
    blocked keyword of the declared order that occurs as a whole word, in any
    letter case, is the one reported; and when no blocked keyword occurs as a
    whole word (inside a longer word does not count) the rejection is not
    the blocked-keyword one. *)
Theorem blocked_keyword_rejected (sql : str) (max_rows : Z) :
  ~ In ";"%char sql ->
  existsb (fun p => contains_word p sql) SYSTEM_TABLES = false ->
  (forall k,
      find (fun k => contains_word k sql) BLOCKED_KEYWORDS = Some k ->
      basic_sanitize_and_enforce sql max_rows
      = Raise (BLOCKED_KEYWORD ("\b" ++ k ++ "\b")))
  /\ (find (fun k => contains_word k sql) BLOCKED_KEYWORDS = None ->
      forall token,
        basic_sanitize_and_enforce sql max_rows
        <> Raise (BLOCKED_KEYWORD token)).
Proof.
  intros Hsemi Htab. rewrite sanitize_gate. unfold gate.
  rewrite semicolon_strip, tables_strip, keywords_strip, Htab.
  assert (Hs : existsb (Ascii.eqb ";") sql = false).
  { destruct (existsb (Ascii.eqb ";") sql) eqn:E; [|reflexivity].
    apply existsb_In_char in E. now elim Hsemi. }
  rewrite Hs. split.
  - intros k Hk. rewrite Hk.
    assert (Hw : contains_word k (strip sql) = true).
    { apply find_some in Hk as [Hin Hk].
      rewrite word_strip; [exact Hk | now apply incl_keywords]. }
    destruct (strip sql) as [|c s] eqn:E; [|reflexivity].
    apply find_some in Hk as [Hin _].
    destruct (words_shape k (incl_keywords k Hin)) as [Hne _].
    unfold contains_word, occurs_from in Hw. simpl in Hw.
    rewrite word_here_nil in Hw by exact Hne. discriminate.
  - intros Hk token. rewrite Hk.
    destruct (negb (truthy (strip sql))); [discriminate|].
    destruct (select_shape (strip sql) || with_shape (strip sql));
      discriminate.
Qed.

Lemma blocked_keyword_rejected_witness :
  basic_sanitize_and_enforce "update products SET unitPrice=0" 1000
  = Raise (BLOCKED_KEYWORD "\bUPDATE\b").
Proof.
  refine (proj1 (blocked_keyword_rejected
                   "update products SET unitPrice=0" 1000 _ _) "UPDATE" _).
  - simpl. intros H.
    repeat (destruct H as [H|H]; [discriminate|]). exact H.
  - reflexivity.
  - reflexivity.
Defined.




(** C5.  An input that passes every check is returned.  When it has a
    LIMIT <integer> clause the result is the trimmed input and nothing else,
    whatever the number in the clause and whatever [max_rows]; when it has
    none, the result is the trimmed input followed once by
    " LIMIT <max_rows>", for a [max_rows] the interpreter formats. *)
Theorem limit_rule (sql : str) (max_rows : Z) :
  passes_earlier_checks sql = true ->
  select_shape (strip sql) || with_shape (strip sql) = true ->
  (has_limit sql = true ->
   basic_sanitize_and_enforce sql max_rows = Return (strip sql))
  /\ (has_limit sql = false ->
      within_int_str_digits max_rows = true ->
      basic_sanitize_and_enforce sql max_rows
      = Return (strip sql ++ " LIMIT " ++ str_of_int max_rows)).
Proof.
  intros H S. rewrite (sanitize_accept sql max_rows H S).
  split; intros ->; reflexivity.
Qed.

Lemma limit_rule_witness :
  basic_sanitize_and_enforce "  SELECT * FROM orders " 10
  = Return ("SELECT * FROM orders LIMIT 10" : str)
  /\ basic_sanitize_and_enforce "  SELECT * FROM orders limit 5000 " 10
     = Return ("SELECT * FROM orders limit 5000" : str).
Proof.
  split.
  - refine (proj2 (limit_rule "  SELECT * FROM orders " 10 _ _) _ _);
      reflexivity.
  - refine (proj1 (limit_rule "  SELECT * FROM orders limit 5000 " 10 _ _) _);
      reflexivity.
Defined.

Lemma existsb_false_forall {A} (f : A -> bool) l :
  existsb f l = false -> forall x, In x l -> f x = false.
Proof.
  intros H x Hx. destruct (f x) eqn:E; [|reflexivity].
  assert (existsb f l = true) by (apply existsb_exists; eauto). congruence.
Qed.

Lemma shape_spec c :
  headed Char.isspace c = false ->
  select_shape c || with_shape c = true ->
  spec_select_start c || spec_with_start c = true.
Proof.
  intros Hc H. apply orb_true_iff in H as [H|H]; apply orb_true_iff.
  - left. now apply select_shape_spec.
  - right. now apply with_shape_spec.
Qed.

Lemma shape_append c t :
  nonword (hd_error t) = true ->
  select_shape c || with_shape c = true ->
  select_shape (c ++ t) || with_shape (c ++ t) = true.
Proof.
  intros Ht H. apply orb_true_iff in H as [H|H]; apply orb_true_iff.
  - left. now apply select_shape_append.
  - right. now apply with_shape_append.
Qed.

(** C2.  An accepted query has no semicolon, contains no blocked keyword and
    no system table as a whole word, begins with SELECT after leading
    parentheses and white space or begins with WITH, and has a LIMIT clause:
    the one of the input, or the appended " LIMIT <max_rows>". *)
Theorem sanitized_query_invariant (sql : str) (max_rows : Z) (out : str) :
  basic_sanitize_and_enforce sql max_rows = Return out ->
  ~ In ";"%char out
  /\ (forall k, In k BLOCKED_KEYWORDS -> contains_word k out = false)
  /\ (forall p, In p SYSTEM_TABLES -> contains_word p out = false)
  /\ spec_select_start out || spec_with_start out = true
  /\ ((has_limit sql = true /\ has_limit out = true)
      \/ out = strip sql ++ " LIMIT " ++ str_of_int max_rows)
  /\ ((0 <= max_rows)%Z -> has_limit out = true).
Proof.
  rewrite sanitize_gate. intros H.
  apply gate_return in H as (H1 & H2 & H3 & H4 & H5 & ->).
  unfold limit_enforced.
  assert (Hh := strip_head sql).
  destruct (has_limit (strip sql)) eqn:L.
  - split; [|split; [|split; [|split; [|split]]]].
    + intros H. apply existsb_In_char in H. congruence.
    + now apply existsb_false_forall.
    + now apply existsb_false_forall.
    + now apply shape_spec.
    + left. rewrite <- has_limit_strip. auto.
    + intros _. exact L.
  - assert (Hd := str_of_int_chars max_rows).
    split; [|split; [|split; [|split; [|split]]]].
    + intros H. apply existsb_In_char in H.
      rewrite semicolon_append in H by exact Hd. congruence.
    + intros k Hk. rewrite contains_word_append
        by (try exact Hd; now apply incl_keywords).
      now apply (existsb_false_forall _ _ H4).
    + intros p Hp. rewrite contains_word_append
        by (try exact Hd; now apply incl_tables).
      now apply (existsb_false_forall _ _ H3).
    + apply shape_spec.
      * rewrite headed_app; [exact Hh|].
        intros E. rewrite E in H1. discriminate.
      * apply shape_append; [reflexivity | exact H5].
    + now right.
    + intros Hn. destruct (str_of_int_nonneg max_rows Hn) as [Hds Hne].
      now apply has_limit_append.
Qed.

Lemma sanitized_query_invariant_witness :
  ~ In ";"%char (list_ascii_of_string "SELECT * FROM orders LIMIT 50")
  /\ (forall k, In k BLOCKED_KEYWORDS ->
                contains_word k "SELECT * FROM orders LIMIT 50" = false)
  /\ (forall p, In p SYSTEM_TABLES ->
                contains_word p "SELECT * FROM orders LIMIT 50" = false)
  /\ spec_select_start "SELECT * FROM orders LIMIT 50"
     || spec_with_start "SELECT * FROM orders LIMIT 50" = true
  /\ ((has_limit " SELECT * FROM orders" = true
       /\ has_limit "SELECT * FROM orders LIMIT 50" = true)
      \/ list_ascii_of_string "SELECT * FROM orders LIMIT 50"
         = strip " SELECT * FROM orders" ++ " LIMIT " ++ str_of_int 50)
  /\ ((0 <= 50)%Z -> has_limit "SELECT * FROM orders LIMIT 50" = true).
Proof.
  apply (sanitized_query_invariant " SELECT * FROM orders" 50). reflexivity.
Defined.

(** C8, as stated, fails for a negative [max_rows]: the appended text is then
    not a LIMIT clause and is appended again. *)
Lemma idempotence_counterexample :
  basic_sanitize_and_enforce "SELECT 1" (-5) = Return ("SELECT 1 LIMIT -5" : str)
  /\ basic_sanitize_and_enforce "SELECT 1 LIMIT -5" (-5)
     = Return ("SELECT 1 LIMIT -5 LIMIT -5" : str)
  /\ basic_sanitize_and_enforce "SELECT 1 LIMIT -5" (-5)
     <> Return ("SELECT 1 LIMIT -5" : str).
Proof. repeat split; try reflexivity. discriminate. Qed.

(** C8, amended.  With [max_rows] not negative, the gate applied to a query
    it accepted accepts it again and returns it unchanged. *)
Theorem sanitize_idempotent (sql : str) (max_rows : Z) (out : str) :
  (0 <= max_rows)%Z ->
  basic_sanitize_and_enforce sql max_rows = Return out ->
  basic_sanitize_and_enforce out max_rows = Return out.
Proof.
  intros Hn H. assert (H0 := H). rewrite sanitize_gate in H.
  apply gate_return in H as (H1 & H2 & H3 & H4 & H5 & ->).
  unfold limit_enforced in *.
  destruct (has_limit (strip sql)) eqn:L.
  - now rewrite sanitize_stripped.
  - destruct (str_of_int_nonneg max_rows Hn) as [Hd Hne].
    assert (Hm := decimal_digit_or_minus _ Hd).
    rewrite sanitize_gate, strip_append by assumption.
    rewrite gate_accept.
    + unfold limit_enforced. now rewrite has_limit_append.
    + destruct (strip sql); [discriminate | reflexivity].
    + now rewrite semicolon_append.
    + etransitivity; [|exact H3].
      apply existsb_words_ext; [apply incl_tables|].
      intros w Hw. now apply contains_word_append.
    + etransitivity; [|exact H4].
      apply existsb_words_ext; [apply incl_keywords|].
      intros w Hw. now apply contains_word_append.
    + apply shape_append; [reflexivity | exact H5].
Qed.

Lemma sanitize_idempotent_witness :
  basic_sanitize_and_enforce "SELECT * FROM orders LIMIT 50" 50
  = Return ("SELECT * FROM orders LIMIT 50" : str).
Proof.
  apply (sanitize_idempotent " SELECT * FROM orders " 50).
  - lia.
  - reflexivity.
Defined.

(** * The claims about execution and the gateway *)

(** C10.  [execute_sql] gives the cursor what the gate returns for the
    default of 1000 rows, whatever [row_limit] is: an input that passes the
    checks and has no LIMIT clause is executed with " LIMIT 1000" appended.
    [row_limit] is used for nothing but [fetchmany] afterwards: a positive
    [row_limit] bounds the rows taken from the cursor, and for any other
    the answer is the driver's. *)
Theorem execute_sql_default_cap {value} (db : database value) (sql : str)
    (row_limit : Z) :
  match basic_sanitize_and_enforce sql 1000 with
  | Raise e =>
      execute_sql db sql row_limit
      = {| value_of := Raise e; statements := [] |}
  | Return q =>
      statements (execute_sql db sql row_limit) = [(q, [])]
      /\ (has_limit sql = false -> q = strip sql ++ " LIMIT 1000")
      /\ match db q [] with
         | Raise e => value_of (execute_sql db sql row_limit) = Raise e
         | Return rs =>
             value_of (execute_sql db sql row_limit) = fetchmany row_limit rs
             /\ ((0 < row_limit)%Z ->
                 exists rows,
                   value_of (execute_sql db sql row_limit) = Return rows
                   /\ rows = firstn (Z.to_nat row_limit) (all_rows rs)
                   /\ List.length rows <= Z.to_nat row_limit)
         end
  end
  /\ (passes_earlier_checks sql = true ->
      select_shape (strip sql) || with_shape (strip sql) = true ->
      has_limit sql = false ->
      statements (execute_sql db sql row_limit)
      = [(strip sql ++ " LIMIT 1000", [])]).
Proof.
  unfold execute_sql. split.
  - destruct (basic_sanitize_and_enforce sql 1000) as [q|e] eqn:E;
      [|reflexivity].
    split; [|split].
    + destruct (db q []); reflexivity.
    + intros L. apply sanitize_return in E. now rewrite L in E.
    + destruct (db q []) as [rs|e]; [|reflexivity].
      split; [reflexivity|]. intros Hpos.
      cbn [value_of]. unfold fetchmany.
      apply Z.ltb_lt in Hpos. rewrite Hpos.
      eexists. split; [reflexivity|]. split; [reflexivity|].
      apply firstn_le_length.
  - intros H S L. rewrite (sanitize_accept sql 1000 H S), L.
    destruct (db _ []); reflexivity.
Qed.

Lemma execute_sql_default_cap_witness :
  statements (execute_sql demo_db "SELECT * FROM orders" 2)
  = [("SELECT * FROM orders LIMIT 1000" : str, [])]
  /\ value_of (execute_sql demo_db "SELECT * FROM orders" 2)
     = Return [[1%Z]; [2%Z]].
Proof.
  assert (H := execute_sql_default_cap demo_db "SELECT * FROM orders" 2).
  split.
  - refine (proj2 H _ _ _); reflexivity.
  - exact (proj1 (proj2 (proj2 (proj1 H)))).
Defined.

(** C6.  The view takes every row of the result set: with a LIMIT of the
    generator's own in the query, the rows fetched exceed the cap of the
    request. *)
Theorem post_fetches_beyond_cap :
  let h := demo_post "SELECT * FROM orders LIMIT 3" (demo_request None 1) in
  cursor_log h
  = [SET_TIMEOUT; ("SELECT * FROM orders LIMIT 3" : str, [])]
  /\ List.length (rows_of (response h)) = 3
  /\ 1 < List.length (rows_of (response h)).
Proof. repeat split; vm_compute; lia. Qed.

(** The rows of a successful response are all the rows of the result set. *)
Lemma post_fetchall {value time} sub to_csv (env : Environment value time)
    (data : validated_data) raw sql rs :
  nl_to_sql env (data_nl_query data) (get (data_schema data) ("" : str))
  = Return raw ->
  basic_sanitize_and_enforce raw (get (data_max_rows data) 1000%Z)
  = Return sql ->
  (exists r0, db env (fst SET_TIMEOUT) (snd SET_TIMEOUT) = Return r0) ->
  db env sql [] = Return rs ->
  data_format data = None ->
  List.length (rows_of (response (post sub to_csv env data)))
  = List.length (all_rows rs).
Proof.
  intros H1 H2 [r0 H3] H4 H5. unfold post.
  rewrite H1, H2, H3, H4, H5. simpl. unfold rows_of. simpl.
  now rewrite length_map.
Qed.

(** C7, as stated, fails: the run is never in state created; it is inserted
    as running. *)
Lemma lifecycle_counterexample :
  let h := demo_post "SELECT * FROM orders" (demo_request None 10) in
  history (audit h)
  = ["running" : str; "running" : str; "success" : str]
  /\ spec_lifecycle (history (audit h)) = false.
Proof. split; reflexivity. Qed.

(** C7, amended.  Every request creates exactly one run; it is inserted in
    state running with the question captured and no generated SQL; every
    path ends with a terminal state as the last write before the response;
    and that terminal state is the only one written (running, then one
    terminal state) on every path but one: the request asks for CSV, the
    query is generated, accepted and executed, and the rendering of its rows
    raises, after success is written. *)
Theorem run_lifecycle {value time} sub to_csv (env : Environment value time)
    (data : validated_data) :
  let h := post sub to_csv env data in
  creations (audit h) = 1
  /\ hd_error (audit h)
     = Some (Created {| nl_query := data_nl_query data;
                        generated_sql := None;
                        status := "running";
                        error := None;
                        meta := None |})
  /\ ends_terminal (history (audit h)) = true
  /\ (running_then_terminal (history (audit h)) = true
      \/ exists raw sql rs e,
           nl_to_sql env (data_nl_query data) (get (data_schema data) ("" : str))
           = Return raw
           /\ basic_sanitize_and_enforce raw (get (data_max_rows data) 1000%Z)
              = Return sql
           /\ db env sql [] = Return rs
           /\ str_eqb (get (data_format data) ("json" : str)) "dataframe_csv"
              = true
           /\ to_csv (map (dict_zip value
                             match description rs with
                             | Some cols => map fst cols
                             | None => []
                             end)
                        (fetchall rs))
              = Raise e
           /\ history (audit h)
              = ["running" : str; "running" : str; "success" : str;
                 match e with
                 | SQLSanitizerError _ => "rejected" : str
                 | Exception _ => "error" : str
                 end]).
Proof.
  unfold post, on_exception.
  destruct (nl_to_sql env _ _) as [raw|[m|m]] eqn:N;
    [|repeat split; try reflexivity; left; reflexivity..].
  destruct (basic_sanitize_and_enforce raw _) as [sql|[m|m]] eqn:B;
    [|repeat split; try reflexivity; left; reflexivity..].
  destruct (db env (fst SET_TIMEOUT) (snd SET_TIMEOUT)) as [r0|[m|m]];
    [|repeat split; try reflexivity; left; reflexivity..].
  destruct (db env sql []) as [rs|[m|m]] eqn:D;
    [|repeat split; try reflexivity; left; reflexivity..].
  destruct (str_eqb _ _) eqn:F;
    [|repeat split; try reflexivity; left; reflexivity].
  cbv iota beta delta [pd_is_None].
  destruct (to_csv _) as [csv|e] eqn:E.
  - repeat split; try reflexivity; left; reflexivity.
  - destruct e as [m|m]; (repeat split; try reflexivity); right;
      exists raw, sql, rs; eexists; repeat split;
      try eassumption; reflexivity.
Qed.

Lemma run_lifecycle_witness :
  running_then_terminal
    (history (audit (demo_post "SELECT * FROM orders"
                       {| data_nl_query := "all orders" : str;
                          data_schema := None;
                          data_format := Some ("dataframe_csv" : str);
                          data_max_rows := None |})))
  = true.
Proof.
  destruct (proj2 (proj2 (proj2
             (run_lifecycle Z.sub (fun _ => Return ([] : str))
                (demo_env "SELECT * FROM orders")
                {| data_nl_query := "all orders" : str;
                   data_schema := None;
                   data_format := Some ("dataframe_csv" : str);
                   data_max_rows := None |}))))
    as [H | (raw & sql & rs & e & _ & _ & _ & _ & H & _)].
  - exact H.
  - discriminate H.
Defined.

(** When the CSV rendering raises, success is already written and error is
    written over it. *)
Example csv_failure_after_success :
  history
    (audit (post Z.sub (fun _ => Raise (Exception "out of memory"))
              (demo_env "SELECT * FROM orders")
              {| data_nl_query := "all orders" : str;
                 data_schema := None;
                 data_format := Some ("dataframe_csv" : str);
                 data_max_rows := None |}))
  = ["running" : str; "running" : str; "success" : str; "error" : str].
Proof. reflexivity. Qed.

(** C9.  The schema field of the request reaches nothing: the string given
    to the gate, the statements executed, the audit writes and the response
    are the same whatever it holds. *)
Theorem schema_field_ignored {value time} sub to_csv
    (env : Environment value time) (nl : str) (fmt : option str)
    (max_rows : option Z) (schema1 schema2 : option str) :
  let d1 := {| data_nl_query := nl; data_schema := schema1;
               data_format := fmt; data_max_rows := max_rows |} in
  let d2 := {| data_nl_query := nl; data_schema := schema2;
               data_format := fmt; data_max_rows := max_rows |} in
  nl_to_sql env nl (get schema1 ("" : str))
  = nl_to_sql env nl (get schema2 ("" : str))
  /\ cursor_log (post sub to_csv env d1) = cursor_log (post sub to_csv env d2)
  /\ audit (post sub to_csv env d1) = audit (post sub to_csv env d2)
  /\ response (post sub to_csv env d1) = response (post sub to_csv env d2).
Proof. repeat split; reflexivity. Qed.

(** * The scenarios of the design document *)

Example scenario_limit_appended :
  basic_sanitize_and_enforce "SELECT * FROM orders" 50
  = Return ("SELECT * FROM orders LIMIT 50" : str).
Proof. reflexivity. Qed.

Example scenario_semicolon :
  basic_sanitize_and_enforce
    "select name from customers; DROP TABLE customers" 1000
  = Raise MULTIPLE_STATEMENTS.
Proof. reflexivity. Qed.

Example scenario_white_space_only :
  basic_sanitize_and_enforce "  " 1000 = Raise EMPTY_INPUT.
Proof. reflexivity. Qed.

Example scenario_update :
  basic_sanitize_and_enforce "UPDATE products SET unitPrice=0" 1000
  = Raise (BLOCKED_KEYWORD "\bUPDATE\b").
Proof. reflexivity. Qed.

Example scenario_information_schema :
  basic_sanitize_and_enforce
    "SELECT table_name FROM information_schema.tables" 1000
  = Raise SYSTEM_CATALOG_ACCESS.
Proof. reflexivity. Qed.

Example scenario_with :
  basic_sanitize_and_enforce
    "WITH recent AS (SELECT * FROM orders) SELECT * FROM recent" 1000
  = Return
      ("WITH recent AS (SELECT * FROM orders) SELECT * FROM recent LIMIT 1000"
       : str).
Proof. reflexivity. Qed.

(** A column named reset holds SET only inside a longer word. *)
Example scenario_reset_column :
  contains_word "SET" "SELECT reset FROM products" = false
  /\ basic_sanitize_and_enforce "SELECT reset FROM products" 10
     = Return ("SELECT reset FROM products LIMIT 10" : str).
Proof. split; reflexivity. Qed.

(** SELECT must be a whole word. *)
Example scenario_select_inside_word :
  spec_select_start "selection from t" = true
  /\ basic_sanitize_and_enforce "selection from t" 10 = Raise NOT_A_SELECT.
Proof. split; reflexivity. Qed.

(** A LIMIT of the generator's own is left as it is, above the cap too. *)
Example scenario_limit_above_cap :
  basic_sanitize_and_enforce " select * from orders limit 5000 " 10
  = Return ("select * from orders limit 5000" : str).
Proof. reflexivity. Qed.

(** [execute_sql] caps the fetch where the view does not. *)
Example scenario_execute_sql_caps :
  value_of (execute_sql demo_db "SELECT * FROM orders LIMIT 3" 1)
  = Return [[1%Z]].
Proof. reflexivity. Qed.

(** The generator's answer in a code fence. *)
Example scenario_code_fence :
  nl_to_sql (demo_env "```sql
SELECT 1
```") "one" ""
  = Return ("SELECT 1" : str).
Proof. reflexivity. Qed.

Example scenario_rejected_run :
  let h := demo_post "DROP TABLE orders" (demo_request None 10) in
  history (audit h) = ["running" : str; "running" : str; "rejected" : str]
  /\ cursor_log h = []
  /\ status_code (response h) = HTTP_400_BAD_REQUEST.
Proof. repeat split; reflexivity. Qed.

(** * Further properties of the gate *)

Lemma strip_nil_iff s : strip s = [] <-> forallb Char.isspace s = true.
Proof.
  split.
  - intros E. destruct (strip_split s) as (l & r & Hl & Hr & Hs).
    rewrite Hs, E, !forallb_app, Hl, Hr. reflexivity.
  - intros H. unfold strip, lstrip.
    rewrite <- (app_nil_r s), (dropwhile_all _ s [] H). reflexivity.
Qed.

Lemma truthy_false_iff (s : str) : truthy s = false <-> s = [].
Proof. destruct s; split; intros H; reflexivity || discriminate. Qed.

Lemma gate_empty_iff c n : gate c n = Raise EMPTY_INPUT <-> truthy c = false.
Proof.
  unfold gate. destruct (truthy c); simpl negb; cbv iota.
  - split; [|discriminate].
    destruct (existsb (Ascii.eqb ";") c); [discriminate|].
    destruct (existsb _ SYSTEM_TABLES); [discriminate|].
    destruct (find _ BLOCKED_KEYWORDS); [discriminate|].
    destruct (select_shape c || with_shape c); discriminate.
  - split; reflexivity.
Qed.

(** X1.  The gate answers with the empty-input rejection exactly for the
    inputs that are empty or hold white space only. *)
Theorem empty_input_iff (sql : str) (max_rows : Z) :
  basic_sanitize_and_enforce sql max_rows = Raise EMPTY_INPUT
  <-> forallb Char.isspace sql = true.
Proof.
  rewrite sanitize_gate, gate_empty_iff, truthy_false_iff.
  apply strip_nil_iff.
Qed.

Lemma contains_word_truthy w s :
  In w WORDS -> contains_word w s = true -> truthy s = true.
Proof.
  intros Hin H. destruct (words_shape w Hin) as [Hne _].
  destruct s as [|x s]; [|reflexivity].
  unfold contains_word, occurs_from in H. simpl in H.
  rewrite word_here_nil in H by exact Hne. discriminate.
Qed.

Lemma tables_truthy s :
  existsb (fun p => contains_word p s) SYSTEM_TABLES = true ->
  truthy s = true.
Proof.
  intros H. apply existsb_exists in H as (p & Hp & H).
  exact (contains_word_truthy p s (incl_tables p Hp) H).
Qed.

(** X2.  The gate answers with the system-catalog rejection exactly for the
    inputs without semicolon that hold pg_catalog or information_schema as a
    whole word, in any letter case, whatever blocked keyword stands beside
    it. *)
Theorem system_catalog_iff (sql : str) (max_rows : Z) :
  basic_sanitize_and_enforce sql max_rows = Raise SYSTEM_CATALOG_ACCESS
  <-> existsb (Ascii.eqb ";") sql = false
      /\ existsb (fun p => contains_word p sql) SYSTEM_TABLES = true.
Proof.
  rewrite sanitize_gate. unfold gate.
  rewrite semicolon_strip, tables_strip. split.
  - destruct (negb (truthy (strip sql))); [discriminate|].
    destruct (existsb (Ascii.eqb ";") sql); [discriminate|].
    destruct (existsb _ SYSTEM_TABLES); [now split|].
    destruct (find _ BLOCKED_KEYWORDS); [discriminate|].
    destruct (select_shape _ || with_shape _); discriminate.
  - intros [H1 H2].
    assert (Ht : truthy (strip sql) = true).
    { apply tables_truthy. now rewrite tables_strip. }
    now rewrite Ht, H1, H2.
Qed.

Lemma passes_earlier_strip sql :
  passes_earlier_checks sql
  = truthy (strip sql)
    && negb (existsb (Ascii.eqb ";") (strip sql))
    && negb (existsb (fun p => contains_word p (strip sql)) SYSTEM_TABLES)
    && negb (existsb (fun k => contains_word k (strip sql)) BLOCKED_KEYWORDS).
Proof.
  unfold passes_earlier_checks.
  rewrite semicolon_strip, tables_strip.
  do 2 f_equal. apply existsb_words_ext; [apply incl_keywords|].
  intros w Hw. symmetry. now apply word_strip.
Qed.

(** X3.  The gate returns a query only for an input that passes the four
    earlier checks and whose trimmed form has the shape of one of the two
    start patterns; and it returns one for every such input that has a LIMIT
    clause, or with a [max_rows] the interpreter formats. *)
Theorem accepted_iff (sql : str) (max_rows : Z) :
  ((exists out, basic_sanitize_and_enforce sql max_rows = Return out) ->
   passes_earlier_checks sql
   && (select_shape (strip sql) || with_shape (strip sql)) = true)
  /\ (passes_earlier_checks sql
      && (select_shape (strip sql) || with_shape (strip sql)) = true ->
      has_limit sql || within_int_str_digits max_rows = true ->
      exists out, basic_sanitize_and_enforce sql max_rows = Return out).
Proof.
  rewrite sanitize_gate, passes_earlier_strip. split.
  - intros [out H]. apply gate_return in H as (H1 & H2 & H3 & H4 & H5 & _).
    now rewrite H1, H2, H3, H4, H5.
  - intros H _. apply andb_true_iff in H as [H H5].
    apply andb_true_iff in H as [H H4]. apply andb_true_iff in H as [H H3].
    apply andb_true_iff in H as [H1 H2]. apply negb_true_iff in H2, H3, H4.
    eexists. now apply gate_accept.
Qed.

Lemma accepted_iff_witness :
  exists out,
    basic_sanitize_and_enforce " with t as (select 1) select * from t " 1000
    = Return out.
Proof.
  refine (proj2 (accepted_iff " with t as (select 1) select * from t " 1000)
            _ _); reflexivity.
Defined.

Lemma forallb_rev {A} (f : A -> bool) l :
  forallb f l = true -> forallb f (rev l) = true.
Proof.
  rewrite !forallb_forall. intros H x Hx. apply H. now apply in_rev.
Qed.

Lemma rstrip_spaces x r :
  forallb Char.isspace r = true -> rstrip (x ++ r) = rstrip x.
Proof.
  intros H. unfold rstrip. rewrite rev_app_distr.
  now rewrite (dropwhile_all _ (rev r) _ (forallb_rev _ _ H)).
Qed.

Lemma strip_padded l s r :
  forallb Char.isspace l = true -> forallb Char.isspace r = true ->
  strip (l ++ s ++ r) = strip s.
Proof.
  intros Hl Hr. unfold strip, lstrip. rewrite (dropwhile_all _ l _ Hl).
  destruct (dropwhile Char.isspace s) as [|y t] eqn:E.
  - rewrite (dropwhile_all _ s r (dropwhile_nil_all _ _ E)).
    rewrite <- (app_nil_r r), (dropwhile_all _ r [] Hr). reflexivity.
  - rewrite dropwhile_keep by (rewrite E; discriminate).
    rewrite E. now apply rstrip_spaces.
Qed.

(** X4.  White space around the input changes nothing: the outcome for an
    input padded with white space on either side is the outcome for the
    input. *)
Theorem padding_ignored (l sql r : str) (max_rows : Z) :
  forallb Char.isspace l = true -> forallb Char.isspace r = true ->
  basic_sanitize_and_enforce (l ++ sql ++ r) max_rows
  = basic_sanitize_and_enforce sql max_rows.
Proof.
  intros Hl Hr. now rewrite !sanitize_gate, strip_padded.
Qed.

Lemma padding_ignored_witness :
  basic_sanitize_and_enforce ("  " ++ "SELECT 1" ++ " ") 10
  = basic_sanitize_and_enforce "SELECT 1" 10.
Proof.
  apply (padding_ignored "  " "SELECT 1" " " 10); reflexivity.
Defined.

Lemma digit_or_minus_not_space c :
  digit_or_minus c = true -> Char.isspace c = false.
Proof. each_char c. Qed.

Lemma str_of_int_nonempty n : str_of_int n <> [].
Proof.
  unfold str_of_int.
  destruct (Z.to_int n) as [d|d]; [apply uint_digits_zero | discriminate].
Qed.

Lemma str_of_int_last n :
  headed Char.isspace (rev (str_of_int n)) = false.
Proof.
  assert (H := forallb_rev _ _ (str_of_int_chars n)).
  destruct (rev (str_of_int n)) as [|d t]; [reflexivity|].
  simpl in *. apply andb_true_iff in H as [H _].
  now apply digit_or_minus_not_space.
Qed.

Lemma strip_limit_text c n :
  truthy (strip c) = true ->
  strip (strip c ++ " LIMIT " ++ str_of_int n)
  = strip c ++ " LIMIT " ++ str_of_int n.
Proof.
  intros Hc. apply strip_id.
  - rewrite headed_app by (intros E; rewrite E in Hc; discriminate).
    apply strip_head.
  - rewrite !rev_app_distr.
    assert (Hr : rev (str_of_int n) <> []).
    { intros E. apply (str_of_int_nonempty n).
      rewrite <- (rev_involutive (str_of_int n)), E. reflexivity. }
    rewrite <- app_assoc, headed_app by exact Hr. apply str_of_int_last.
Qed.

(** X5.  A query the gate returns is not empty and has no white space at
    either end: trimming it again gives it back, also when " LIMIT n" was
    appended. *)
Theorem output_trimmed (sql : str) (max_rows : Z) (out : str) :
  basic_sanitize_and_enforce sql max_rows = Return out ->
  out <> [] /\ strip out = out.
Proof.
  rewrite sanitize_gate. intros H.
  apply gate_return in H as (H1 & _ & _ & _ & _ & ->).
  unfold limit_enforced. destruct (has_limit (strip sql)).
  - split; [|apply strip_idem]. intros E. rewrite E in H1. discriminate.
  - split; [|now apply strip_limit_text].
    intros E. apply app_eq_nil in E as [E _]. rewrite E in H1. discriminate.
Qed.

Lemma output_trimmed_witness :
  list_ascii_of_string "SELECT 1 LIMIT -3" <> []
  /\ strip "SELECT 1 LIMIT -3" = "SELECT 1 LIMIT -3".
Proof.
  apply (output_trimmed "  SELECT 1  " (-3)). reflexivity.
Defined.

(** X6.  The cap has no part in the decision: an input rejected with one
    [max_rows] is rejected with the same message with any other; with two
    values of [max_rows] the interpreter formats, the input is accepted by
    both or rejected by both; and for an input that has a LIMIT clause the
    two results are the same. *)
Theorem decision_independent_of_cap (sql : str) (n m : Z) :
  (forall msg,
     basic_sanitize_and_enforce sql n = Raise (SQLSanitizerError msg) ->
     basic_sanitize_and_enforce sql m = Raise (SQLSanitizerError msg))
  /\ (within_int_str_digits n = true -> within_int_str_digits m = true ->
      rejection (basic_sanitize_and_enforce sql n)
      = rejection (basic_sanitize_and_enforce sql m))
  /\ (has_limit sql = true ->
      basic_sanitize_and_enforce sql n = basic_sanitize_and_enforce sql m).
Proof.
  rewrite !sanitize_gate, <- has_limit_strip. unfold gate.
  destruct (negb (truthy (strip sql))); [now repeat split|].
  destruct (existsb (Ascii.eqb ";") (strip sql)); [now repeat split|].
  destruct (existsb _ SYSTEM_TABLES); [now repeat split|].
  destruct (find _ BLOCKED_KEYWORDS); [now repeat split|].
  destruct (select_shape _ || with_shape _); [|now repeat split].
  split; [discriminate|]. split; [reflexivity|]. now intros ->.
Qed.

Lemma decision_independent_of_cap_witness :
  rejection (basic_sanitize_and_enforce "SELECT * FROM orders" 5)
  = rejection (basic_sanitize_and_enforce "SELECT * FROM orders" 1000)
  /\ rejection (basic_sanitize_and_enforce "DROP TABLE orders" 5)
     = rejection (basic_sanitize_and_enforce "DROP TABLE orders" 1000).
Proof.
  split.
  - refine (proj1 (proj2
              (decision_independent_of_cap "SELECT * FROM orders" 5 1000))
              _ _); reflexivity.
  - refine (proj1 (proj2
              (decision_independent_of_cap "DROP TABLE orders" 5 1000))
              _ _); reflexivity.
Defined.

(** ** Letter case *)

Lemma tolower_idem c : Char.tolower (Char.tolower c) = Char.tolower c.
Proof. each_char c. Qed.

Lemma tolower_decimal c : Char.isdecimal (Char.tolower c) = Char.isdecimal c.
Proof. each_char c. Qed.

Lemma tolower_paren c : is_paren (Char.tolower c) = is_paren c.
Proof. each_char c. Qed.

Lemma tolower_semicolon c :
  Ascii.eqb ";" (Char.tolower c) = Ascii.eqb ";" c.
Proof. each_char c. Qed.

Lemma dropwhile_map (f : ascii -> bool) (g : ascii -> ascii) s :
  (forall c, f (g c) = f c) ->
  dropwhile f (map g s) = map g (dropwhile f s).
Proof.
  intros H. induction s as [|x s IH]; [reflexivity|].
  simpl. rewrite H. now destruct (f x).
Qed.

Lemma headed_map (f : ascii -> bool) (g : ascii -> ascii) s :
  (forall c, f (g c) = f c) -> headed f (map g s) = headed f s.
Proof. intros H. destruct s; [reflexivity | apply H]. Qed.

Lemma strip_lower s : strip (lower s) = lower (strip s).
Proof.
  unfold strip, rstrip, lstrip, lower.
  rewrite (dropwhile_map _ _ s tolower_space), <- map_rev.
  rewrite (dropwhile_map _ _ _ tolower_space). now rewrite map_rev.
Qed.

Lemma truthy_lower s : truthy (lower s) = truthy s.
Proof. now destruct s. Qed.

Lemma semicolon_lower s :
  existsb (Ascii.eqb ";") (lower s) = existsb (Ascii.eqb ";") s.
Proof.
  unfold lower. induction s as [|x s IH]; [reflexivity|].
  cbn [map existsb]. now rewrite tolower_semicolon, IH.
Qed.

Lemma prefix_ci_lower w s : prefix_ci w (lower s) = prefix_ci w s.
Proof.
  revert s. induction w as [|a w IH]; intros s; [reflexivity|].
  destruct s as [|x s]; [reflexivity|].
  unfold lower. cbn [map prefix_ci]. fold (lower s).
  unfold eqb_ci. now rewrite tolower_idem, IH.
Qed.

Lemma nonword_lower (o : option ascii) :
  nonword (option_map Char.tolower o) = nonword o.
Proof.
  destruct o as [c|]; [|reflexivity]. unfold nonword. simpl.
  now rewrite tolower_word.
Qed.

Lemma whole_word_head_lower w s :
  whole_word_head w (lower s) = whole_word_head w s.
Proof.
  unfold whole_word_head. rewrite prefix_ci_lower. unfold lower.
  now rewrite nth_error_map, nonword_lower.
Qed.

Lemma word_here_lower w p p' s :
  Re.word_opt p = Re.word_opt p' ->
  word_here w p (lower s) = word_here w p' s.
Proof.
  intros H. rewrite !word_here_head, whole_word_head_lower.
  unfold nonword. now rewrite H.
Qed.

Lemma scan_lower h :
  (forall p p' s, Re.word_opt p = Re.word_opt p' ->
                  h p (lower s) = h p' s) ->
  forall s p p', Re.word_opt p = Re.word_opt p' ->
                 scan h p (lower s) = scan h p' s.
Proof.
  intros H. induction s as [|x s IH]; intros p p' Hp.
  - simpl. f_equal. exact (H p p' [] Hp).
  - simpl. f_equal; [exact (H p p' (x :: s) Hp)|].
    apply (IH (Some (Char.tolower x)) (Some x)). simpl. apply tolower_word.
Qed.

Lemma contains_word_lower w s : contains_word w (lower s) = contains_word w s.
Proof.
  unfold contains_word, occurs_from. apply scan_lower; [|reflexivity].
  intros. now apply word_here_lower.
Qed.

Lemma select_shape_lower s : select_shape (lower s) = select_shape s.
Proof.
  unfold select_shape.
  fold (whole_word_head "SELECT"
          (dropwhile Char.isspace
             (dropwhile is_paren (dropwhile Char.isspace (lower s))))).
  fold (whole_word_head "SELECT"
          (dropwhile Char.isspace
             (dropwhile is_paren (dropwhile Char.isspace s)))).
  unfold lower.
  rewrite (dropwhile_map _ _ _ tolower_space),
    (dropwhile_map _ _ _ tolower_paren), (dropwhile_map _ _ _ tolower_space).
  apply whole_word_head_lower.
Qed.

Lemma with_shape_lower s : with_shape (lower s) = with_shape s.
Proof.
  unfold with_shape.
  fold (whole_word_head "WITH" (dropwhile Char.isspace (lower s))).
  fold (whole_word_head "WITH" (dropwhile Char.isspace s)).
  unfold lower. rewrite (dropwhile_map _ _ _ tolower_space).
  apply whole_word_head_lower.
Qed.

Lemma hd_error_map {A B} (g : A -> B) l :
  hd_error (map g l) = option_map g (hd_error l).
Proof. now destruct l. Qed.

Lemma limit_tail_lower r : limit_tail (lower r) = limit_tail r.
Proof.
  unfold limit_tail, digits_tail, lower.
  rewrite (headed_map _ _ _ tolower_space),
    (dropwhile_map _ _ _ tolower_space),
    (headed_map _ _ _ tolower_decimal),
    (dropwhile_map _ _ _ tolower_decimal), hd_error_map, nonword_lower.
  reflexivity.
Qed.

Lemma limit_here_lower p p' s :
  Re.word_opt p = Re.word_opt p' ->
  limit_here p (lower s) = limit_here p' s.
Proof.
  intros H. unfold limit_here. rewrite prefix_ci_lower.
  unfold lower at 1. rewrite skipn_map. fold (lower (skipn 5 s)).
  rewrite limit_tail_lower. unfold nonword. now rewrite H.
Qed.

Lemma has_limit_lower s : has_limit (lower s) = has_limit s.
Proof.
  unfold has_limit, limit_from. apply scan_lower; [|reflexivity].
  intros. now apply limit_here_lower.
Qed.

Lemma existsb_ext_all {A} (f g : A -> bool) l :
  (forall x, f x = g x) -> existsb f l = existsb g l.
Proof.
  intros H. induction l as [|a l IH]; [reflexivity|].
  simpl. now rewrite H, IH.
Qed.

Lemma find_ext_all {A} (f g : A -> bool) l :
  (forall x, f x = g x) -> find f l = find g l.
Proof.
  intros H. induction l as [|a l IH]; [reflexivity|].
  simpl. now rewrite H, IH.
Qed.

Lemma lower_idem s : lower (lower s) = lower s.
Proof.
  unfold lower. rewrite map_map. apply map_ext. apply tolower_idem.
Qed.

(** The gate on a string and on its lower-case form: the same rejection, or
    two queries that are the same up to letter case. *)
Lemma gate_lower c n :
  match gate (lower c) n, gate c n with
  | Return o, Return o' => lower o = lower o'
  | Raise e, Raise e' => e = e'
  | _, _ => False
  end.
Proof.
  unfold gate.
  rewrite truthy_lower, semicolon_lower, select_shape_lower,
    with_shape_lower, has_limit_lower.
  rewrite (existsb_ext_all (fun p => contains_word p (lower c))
             (fun p => contains_word p c))
    by (intros; apply contains_word_lower).
  rewrite (find_ext_all (fun k => contains_word k (lower c))
             (fun k => contains_word k c))
    by (intros; apply contains_word_lower).
  destruct (negb (truthy c)); [reflexivity|].
  destruct (existsb (Ascii.eqb ";") c); [reflexivity|].
  destruct (existsb _ SYSTEM_TABLES); [reflexivity|].
  destruct (find _ BLOCKED_KEYWORDS); [reflexivity|].
  destruct (select_shape c || with_shape c); [|reflexivity].
  destruct (has_limit c); [apply lower_idem|].
  unfold lower. rewrite !map_app, map_map. f_equal.
  apply map_ext. apply tolower_idem.
Qed.

(** X7.  Letter case has no part in the decision: two inputs that differ
    only in the case of their letters are rejected with the same message, or
    both accepted with results that differ only in letter case. *)
Theorem letter_case_ignored (s s' : str) (max_rows : Z) :
  lower s = lower s' ->
  match basic_sanitize_and_enforce s max_rows,
        basic_sanitize_and_enforce s' max_rows with
  | Return o, Return o' => lower o = lower o'
  | Raise e, Raise e' => e = e'
  | _, _ => False
  end.
Proof.
  intros E. rewrite !sanitize_gate.
  assert (H := gate_lower (strip s) max_rows).
  assert (H' := gate_lower (strip s') max_rows).
  rewrite <- strip_lower in H, H'. rewrite <- E in H'.
  destruct (gate (strip (lower s)) max_rows) as [o0|e0];
    destruct (gate (strip s) max_rows) as [o|e]; try contradiction;
    destruct (gate (strip s') max_rows) as [o'|e']; try contradiction;
    congruence.
Qed.

Lemma letter_case_ignored_witness :
  match basic_sanitize_and_enforce "Select * From T; drop table t" 10,
        basic_sanitize_and_enforce "SELECT * FROM t; DROP TABLE T" 10 with
  | Return o, Return o' => lower o = lower o'
  | Raise e, Raise e' => e = e'
  | _, _ => False
  end.
Proof.
  apply (letter_case_ignored "Select * From T; drop table t"
           "SELECT * FROM t; DROP TABLE T" 10).
  reflexivity.
Defined.

(** ** A query the gate accepted, given to the gate again *)

Lemma accepted_fixed_point sql n out :
  (0 <= n)%Z ->
  basic_sanitize_and_enforce sql n = Return out ->
  forall m, basic_sanitize_and_enforce out m = Return out.
Proof.
  intros Hn H m. rewrite sanitize_gate in H.
  apply gate_return in H as (H1 & H2 & H3 & H4 & H5 & ->).
  unfold limit_enforced.
  destruct (has_limit (strip sql)) eqn:L.
  - rewrite sanitize_gate, strip_idem, gate_accept by assumption.
    unfold limit_enforced. now rewrite L.
  - destruct (str_of_int_nonneg n Hn) as [Hd Hne].
    assert (Hm := decimal_digit_or_minus _ Hd).
    rewrite sanitize_gate, strip_append by assumption.
    rewrite gate_accept.
    + unfold limit_enforced. now rewrite has_limit_append.
    + destruct (strip sql); [discriminate | reflexivity].
    + now rewrite semicolon_append.
    + etransitivity; [|exact H3].
      apply existsb_words_ext; [apply incl_tables|].
      intros w Hw. now apply contains_word_append.
    + etransitivity; [|exact H4].
      apply existsb_words_ext; [apply incl_keywords|].
      intros w Hw. now apply contains_word_append.
    + apply shape_append; [reflexivity | exact H5].
Qed.

(** X8.  A query the gate returned for a cap that is not negative passes the
    gate again unchanged under any other cap, and [execute_sql], which
    sanitizes once more with its own default, gives the cursor that very
    query: no second LIMIT is appended. *)
Theorem accepted_query_executed_unchanged (sql : str) (n : Z) (out : str) :
  (0 <= n)%Z ->
  basic_sanitize_and_enforce sql n = Return out ->
  (forall m, basic_sanitize_and_enforce out m = Return out)
  /\ (forall value (db : database value) row_limit,
         statements (execute_sql db out row_limit) = [(out, [])]).
Proof.
  intros Hn H. assert (F := accepted_fixed_point sql n out Hn H).
  split; [exact F|]. intros value db row_limit. unfold execute_sql.
  rewrite (F 1000%Z). now destruct (db out []).
Qed.

Lemma accepted_query_executed_unchanged_witness :
  (forall m, basic_sanitize_and_enforce "SELECT * FROM orders LIMIT 7" m
             = Return ("SELECT * FROM orders LIMIT 7" : str))
  /\ (forall value (db : database value) row_limit,
         statements (execute_sql db "SELECT * FROM orders LIMIT 7" row_limit)
         = [("SELECT * FROM orders LIMIT 7" : str, [])]).
Proof.
  apply (accepted_query_executed_unchanged "SELECT * FROM orders" 7).
  - lia.
  - reflexivity.
Defined.

(** ** What the patterns accept *)

(** X9.  Each pattern of BLOCKED_TOKENS is a blocked keyword between two
    [\b], and such a pattern, like the one built for a system table, is found
    in a string exactly when the string holds a stretch equal to the word up
    to letter case with no word character before or after it. *)
Theorem word_patterns_meaning :
  BLOCKED_TOKENS = map (fun w => "\b" ++ w ++ "\b") BLOCKED_KEYWORDS
  /\ forall w s,
       In w (SYSTEM_TABLES ++ BLOCKED_KEYWORDS) ->
       (Re.search ("\b" ++ w ++ "\b") s Re.IGNORECASE = true
        <-> exists u m v,
              s = u ++ m ++ v
              /\ map Char.tolower w = map Char.tolower m
              /\ nonword (before u) = true
              /\ nonword (hd_error v) = true).
Proof.
  split; [reflexivity|]. intros w s Hin.
  fold (wrap w). rewrite (re_search_word w s Hin). apply contains_word_spec.
Qed.

Lemma word_patterns_meaning_witness :
  Re.search ("\b" ++ "DROP" ++ "\b") "x; drop table t" Re.IGNORECASE = true.
Proof.
  apply (proj2 word_patterns_meaning "DROP" "x; drop table t").
  - simpl. repeat first [left; reflexivity | right].
  - exists (list_ascii_of_string "x; "), (list_ascii_of_string "drop"),
      (list_ascii_of_string " table t").
    repeat split; reflexivity.
Defined.

(** X10.  LIMIT_RE is found in a string exactly when the string holds the
    word LIMIT in any letter case with no word character before it, then
    white space, then decimal digits with no word character after them. *)
Theorem limit_pattern_meaning (s : str) :
  Re.Pattern_search LIMIT_RE s = true
  <-> exists u m ws ds v,
        s = u ++ m ++ ws ++ ds ++ v
        /\ map Char.tolower "LIMIT" = map Char.tolower m
        /\ nonword (before u) = true
        /\ ws <> [] /\ forallb Char.isspace ws = true
        /\ ds <> [] /\ forallb Char.isdecimal ds = true
        /\ nonword (hd_error v) = true.
Proof. rewrite search_limit. apply has_limit_spec. Qed.

Lemma whole_word_head_spec w s :
  whole_word_head w s = true
  <-> exists m v,
        s = m ++ v
        /\ map Char.tolower w = map Char.tolower m
        /\ nonword (hd_error v) = true.
Proof.
  unfold whole_word_head. rewrite andb_true_iff, prefix_ci_spec. split.
  - intros ((m & v & -> & Hm) & Hv). exists m, v.
    repeat split; try assumption.
    rewrite nth_error_after in Hv; [exact Hv|].
    apply (f_equal (@List.length _)) in Hm. now rewrite !length_map in Hm.
  - intros (m & v & -> & Hm & Hv). split; [now exists m, v|].
    rewrite nth_error_after; [exact Hv|].
    apply (f_equal (@List.length _)) in Hm. now rewrite !length_map in Hm.
Qed.

Lemma space_not_paren c : Char.isspace c = true -> is_paren c = false.
Proof. each_char c. Qed.

Lemma headed_spaces_then f (ws body : str) :
  (forall c, Char.isspace c = true -> f c = false) ->
  forallb Char.isspace ws = true -> headed f body = false ->
  headed f (ws ++ body) = false.
Proof.
  intros Hf Hws Hb. destruct ws as [|x ws]; [exact Hb|].
  simpl in *. apply andb_true_iff in Hws as [Hx _]. now apply Hf.
Qed.

Lemma select_shape_iff s :
  select_shape s = true
  <-> exists ws1 ps ws2 m v,
        s = ws1 ++ ps ++ ws2 ++ m ++ v
        /\ forallb Char.isspace ws1 = true
        /\ forallb is_paren ps = true
        /\ forallb Char.isspace ws2 = true
        /\ map Char.tolower "SELECT" = map Char.tolower m
        /\ nonword (hd_error v) = true.
Proof.
  unfold select_shape.
  fold (whole_word_head "SELECT"
          (dropwhile Char.isspace
             (dropwhile is_paren (dropwhile Char.isspace s)))).
  split.
  - intros H. apply whole_word_head_spec in H as (m & v & E & Hm & Hv).
    destruct (dropwhile_split Char.isspace s) as (ws1 & H1 & E1).
    destruct (dropwhile_split is_paren (dropwhile Char.isspace s))
      as (ps & H2 & E2).
    destruct (dropwhile_split Char.isspace
                (dropwhile is_paren (dropwhile Char.isspace s)))
      as (ws2 & H3 & E3).
    exists ws1, ps, ws2, m, v. repeat split; try assumption.
    rewrite E1 at 1. rewrite E2 at 1. rewrite E3 at 1. now rewrite E.
  - intros (ws1 & ps & ws2 & m & v & -> & H1 & H2 & H3 & Hm & Hv).
    assert (Hb : whole_word_head "SELECT" (m ++ v) = true)
      by (apply whole_word_head_spec; now exists m, v).
    assert (Hne : list_ascii_of_string "SELECT" <> []) by discriminate.
    assert (Hsp := whole_word_head_class _ _ Char.isspace Hne eq_refl
                     space_not_word Hb).
    assert (Hpa := whole_word_head_class _ _ is_paren Hne eq_refl
                     paren_not_word Hb).
    rewrite (dropwhile_all _ ws1 _ H1).
    destruct ps as [|p ps].
    + simpl app. rewrite (dropwhile_all _ ws2 _ H3).
      rewrite (dropwhile_id _ _ Hsp), (dropwhile_id _ _ Hpa),
        (dropwhile_id _ _ Hsp). exact Hb.
    + assert (Hp : is_paren p = true)
        by (simpl in H2; now apply andb_true_iff in H2 as [H2 _]).
      rewrite (dropwhile_id Char.isspace ((p :: ps) ++ ws2 ++ m ++ v))
        by (simpl; now apply paren_not_space).
      rewrite (dropwhile_all _ (p :: ps) _ H2).
      rewrite (dropwhile_id is_paren (ws2 ++ m ++ v))
        by (apply headed_spaces_then;
            [exact space_not_paren | exact H3 | exact Hpa]).
      rewrite (dropwhile_all _ ws2 _ H3), (dropwhile_id _ _ Hsp). exact Hb.
Qed.

Lemma with_shape_iff s :
  with_shape s = true
  <-> exists ws m v,
        s = ws ++ m ++ v
        /\ forallb Char.isspace ws = true
        /\ map Char.tolower "WITH" = map Char.tolower m
        /\ nonword (hd_error v) = true.
Proof.
  unfold with_shape.
  fold (whole_word_head "WITH" (dropwhile Char.isspace s)).
  split.
  - intros H. apply whole_word_head_spec in H as (m & v & E & Hm & Hv).
    destruct (dropwhile_split Char.isspace s) as (ws & H1 & E1).
    exists ws, m, v. repeat split; try assumption.
    rewrite E1 at 1. now rewrite E.
  - intros (ws & m & v & -> & H1 & Hm & Hv).
    assert (Hb : whole_word_head "WITH" (m ++ v) = true)
      by (apply whole_word_head_spec; now exists m, v).
    assert (Hne : list_ascii_of_string "WITH" <> []) by discriminate.
    assert (Hsp := whole_word_head_class _ _ Char.isspace Hne eq_refl
                     space_not_word Hb).
    rewrite (dropwhile_all _ ws _ H1), (dropwhile_id _ _ Hsp). exact Hb.
Qed.

(** X11.  SELECT_RE matches at the start of a string exactly when the string
    is white space, then opening parentheses, then white space, then SELECT
    in any letter case with no word character after it; the WITH pattern
    matches exactly when the string is white space, then WITH in any letter
    case with no word character after it. *)
Theorem start_patterns_meaning (s : str) :
  (Re.Pattern_match SELECT_RE s = true
   <-> exists ws1 ps ws2 m v,
         s = ws1 ++ ps ++ ws2 ++ m ++ v
         /\ forallb Char.isspace ws1 = true
         /\ forallb is_paren ps = true
         /\ forallb Char.isspace ws2 = true
         /\ map Char.tolower "SELECT" = map Char.tolower m
         /\ nonword (hd_error v) = true)
  /\ (Re.match_ "^\s*WITH\b" s Re.IGNORECASE = true
      <-> exists ws m v,
            s = ws ++ m ++ v
            /\ forallb Char.isspace ws = true
            /\ map Char.tolower "WITH" = map Char.tolower m
            /\ nonword (hd_error v) = true).
Proof.
  rewrite match_select, match_with. split;
    [apply select_shape_iff | apply with_shape_iff].
Qed.

(** * Further properties of the gateway *)

Lemma accepted_clean sql n out :
  basic_sanitize_and_enforce sql n = Return out ->
  existsb (Ascii.eqb ";") out = false
  /\ forall w, In w WORDS -> contains_word w out = false.
Proof.
  rewrite sanitize_gate. intros H.
  apply gate_return in H as (H1 & H2 & H3 & H4 & H5 & ->).
  assert (Hw : forall w, In w WORDS -> contains_word w (strip sql) = false).
  { intros w Hw. apply in_app_or in Hw as [Hw|Hw].
    - now apply (existsb_false_forall _ _ H3).
    - now apply (existsb_false_forall _ _ H4). }
  unfold limit_enforced. destruct (has_limit (strip sql)); [now split|].
  assert (Hd := str_of_int_chars n). split.
  - now rewrite semicolon_append.
  - intros w Hin. rewrite contains_word_append by assumption. now apply Hw.
Qed.

Lemma accepted_has_limit sql n out :
  (0 <= n)%Z ->
  basic_sanitize_and_enforce sql n = Return out -> has_limit out = true.
Proof.
  intros Hn. rewrite sanitize_gate. intros H.
  apply gate_return in H as (_ & _ & _ & _ & _ & ->).
  unfold limit_enforced. destruct (has_limit (strip sql)) eqn:L; [exact L|].
  destruct (str_of_int_nonneg n Hn) as [Hd Hne]. now apply has_limit_append.
Qed.

Ltac post_paths env to_csv sql :=
  unfold post, on_exception;
  destruct (nl_to_sql env _ _) as [?raw|[?m|?m]] eqn:?Hgen;
  [destruct (basic_sanitize_and_enforce _ _) as [sql|[?m|?m]] eqn:?Hgate;
   [destruct (db env (fst SET_TIMEOUT) (snd SET_TIMEOUT))
      as [?r0|[?m|?m]] eqn:?Hset;
    [destruct (db env sql []) as [?rs|[?m|?m]] eqn:?Hrun;
     [destruct (str_eqb _ _) eqn:?Hfmt;
      [cbv iota beta delta [pd_is_None];
       destruct (to_csv _) as [?csv|[?m|?m]] eqn:?Hcsv|]|..]|..]|..]|..].

Lemma cursor_gets_accepted_sql_only_aux {value time} sub to_csv
    (env : Environment value time) (req : validated_data) :
  let h := post sub to_csv env req in
  match nl_to_sql env (data_nl_query req) (get (data_schema req) ("" : str))
  with
  | Raise _ => cursor_log h = []
  | Return raw =>
      match basic_sanitize_and_enforce raw (get (data_max_rows req) 1000%Z)
      with
      | Raise _ => cursor_log h = []
      | Return sql =>
          cursor_log h = [SET_TIMEOUT]
          \/ cursor_log h = [SET_TIMEOUT; (sql, [])]
      end
  end.
Proof.
  cbv zeta. post_paths env to_csv sql; auto.
Qed.

(** X12.  The cursor is given nothing when the generator raises or the gate
    rejects.  Otherwise it is given the timeout setting and, after it, at
    most one statement: the query the gate returned for the generator's
    answer, without parameters; that query holds no semicolon and none of the
    blocked keywords or system tables as a whole word. *)
Theorem cursor_gets_accepted_sql_only {value time} sub to_csv
    (env : Environment value time) (req : validated_data) :
  let h := post sub to_csv env req in
  match nl_to_sql env (data_nl_query req) (get (data_schema req) ("" : str))
  with
  | Raise _ => cursor_log h = []
  | Return raw =>
      match basic_sanitize_and_enforce raw (get (data_max_rows req) 1000%Z)
      with
      | Raise _ => cursor_log h = []
      | Return sql =>
          (cursor_log h = [SET_TIMEOUT]
           \/ cursor_log h = [SET_TIMEOUT; (sql, [])])
          /\ ~ In ";"%char sql
          /\ forall w, In w (SYSTEM_TABLES ++ BLOCKED_KEYWORDS) ->
                       contains_word w sql = false
      end
  end.
Proof.
  assert (H := cursor_gets_accepted_sql_only_aux sub to_csv env req).
  cbv zeta in *.
  destruct (nl_to_sql env _ _) as [raw|e]; [|exact H].
  destruct (basic_sanitize_and_enforce raw _) as [sql|e] eqn:Hgate;
    [|exact H].
  destruct (accepted_clean _ _ _ Hgate) as [Hs Hw].
  split; [exact H|]. split; [|exact Hw].
  intros Hin. apply existsb_In_char in Hin. congruence.
Qed.

(** X13.  The response agrees with the record as the last write leaves it:
    rows or CSV come with status 200 and a record in state success without
    error text; the rejection message comes with status 400 and is the error
    text of a record in state rejected; "Execution failed" comes with status
    500 and its detail is the error text of a record in state error. *)
Theorem response_matches_audit {value time} sub to_csv
    (env : Environment value time) (req : validated_data) :
  let h := post sub to_csv env req in
  exists log,
    final_log (audit h) = Some log
    /\ match data (response h) with
       | RowsBody _ _ m =>
           status_code (response h) = 200
           /\ status log = "success" /\ error log = None /\ m = meta log
       | CsvBody _ _ =>
           status_code (response h) = 200
           /\ status log = "success" /\ error log = None
       | ErrorBody msg =>
           status_code (response h) = 400
           /\ status log = "rejected" /\ error log = Some msg
       | FailureBody e msg =>
           status_code (response h) = 500
           /\ e = "Execution failed"
           /\ status log = "error" /\ error log = Some msg
       end.
Proof.
  cbv zeta. post_paths env to_csv sql;
    (eexists; split; [reflexivity|]; repeat split; reflexivity).
Qed.

(** X14.  Every write of a run carries the question of the request.  The
    record is inserted without generated SQL, and every later write carries
    the generator's answer as it was returned, also when the gate rejects
    it; when the generator raised, the field stays empty. *)
Theorem audit_keeps_question_and_answer {value time} sub to_csv
    (env : Environment value time) (req : validated_data) :
  let h := post sub to_csv env req in
  (forall w, In w (audit h) -> nl_query (written w) = data_nl_query req)
  /\ option_map (fun w => generated_sql (written w)) (hd_error (audit h))
     = Some None
  /\ forall w, In w (tl (audit h)) ->
       generated_sql (written w)
       = match nl_to_sql env (data_nl_query req)
                 (get (data_schema req) ("" : str)) with
         | Return raw => Some raw
         | Raise _ => None
         end.
Proof.
  cbv zeta. post_paths env to_csv sql;
    (split; [|split; [reflexivity|]]; intros w Hw; simpl in Hw;
     repeat (destruct Hw as [<-|Hw]; [reflexivity|]); destruct Hw).
Qed.

(** X15.  A response with rows tells what was done: its sql is the one
    statement given to the cursor after the timeout setting, it is what the
    gate returned for the generator's answer, there are as many rows as the
    result set of that statement holds, and the row count of the meta data is
    that number. *)
Theorem rows_response_faithful {value time} sub to_csv
    (env : Environment value time) (req : validated_data) sql rows m :
  data (response (post sub to_csv env req)) = RowsBody sql rows m ->
  cursor_log (post sub to_csv env req) = [SET_TIMEOUT; (sql, [])]
  /\ (exists raw,
         nl_to_sql env (data_nl_query req) (get (data_schema req) ("" : str))
         = Return raw
         /\ basic_sanitize_and_enforce raw (get (data_max_rows req) 1000%Z)
            = Return sql)
  /\ (exists rs,
         db env sql [] = Return rs
         /\ List.length rows = List.length (all_rows rs))
  /\ option_map (@row_count time) m = Some (List.length rows).
Proof.
  post_paths env to_csv sql0; cbn [response data]; intros H;
    try discriminate H.
  injection H as <- <- <-.
  split; [reflexivity|]. split; [now exists raw|].
  split; [exists rs; split; [exact Hrun | apply length_map]|].
  cbn. unfold fetchall. now rewrite length_map.
Qed.

Lemma rows_response_faithful_witness :
  cursor_log (demo_post "SELECT * FROM orders" (demo_request None 5))
  = [SET_TIMEOUT; ("SELECT * FROM orders LIMIT 5" : str, [])].
Proof.
  refine (proj1 (rows_response_faithful Z.sub _ (demo_env _)
                   (demo_request None 5) _ _ _ _)).
  reflexivity.
Defined.

(** X16.  With the cap the serializer admits (absent, or from 1 to 1000)
    every query the view gives to the cursor has a LIMIT clause that LIMIT_RE
    recognises. *)
Theorem executed_query_has_limit {value time} sub to_csv
    (env : Environment value time) (req : validated_data) (sql : str) :
  match data_max_rows req with
  | None => True
  | Some n => (1 <= n <= 1000)%Z
  end ->
  In (sql, []) (cursor_log (post sub to_csv env req)) ->
  has_limit sql = true.
Proof.
  intros Hcap Hin.
  assert (Hn : (0 <= get (data_max_rows req) 1000)%Z).
  { destruct (data_max_rows req); simpl in *; lia. }
  assert (H := cursor_gets_accepted_sql_only_aux sub to_csv env req).
  cbv zeta in H.
  destruct (nl_to_sql env _ _) as [raw|e]; [|rewrite H in Hin; destruct Hin].
  destruct (basic_sanitize_and_enforce raw _) as [q|e] eqn:Hgate;
    [|rewrite H in Hin; destruct Hin].
  assert (Hq := accepted_has_limit _ _ _ Hn Hgate).
  destruct H as [H|H]; rewrite H in Hin; simpl in Hin.
  - destruct Hin as [E|[]]. discriminate E.
  - destruct Hin as [E|[E|[]]]; [discriminate E|].
    injection E as <-. exact Hq.
Qed.

Lemma executed_query_has_limit_witness :
  has_limit "SELECT * FROM orders LIMIT 5" = true.
Proof.
  apply (executed_query_has_limit Z.sub (fun _ => Return ([] : str))
           (demo_env "SELECT * FROM orders") (demo_request None 5)).
  - simpl. lia.
  - right. left. reflexivity.
Defined.

(** ** The dictionary of a row *)

Lemma str_eqb_eq a b : str_eqb a b = true <-> a = b.
Proof.
  revert b. induction a as [|x a IH]; intros [|y b]; simpl;
    try (split; [discriminate | intros H; discriminate H]);
    [split; reflexivity|].
  rewrite andb_true_iff, Ascii.eqb_eq, IH. split.
  - intros [-> ->]. reflexivity.
  - intros H. injection H as -> ->. now split.
Qed.

Lemma dict_set_fresh {value} (d : dict value) k v :
  ~ In k (map fst d) -> dict_set value d k v = d ++ [(k, v)].
Proof.
  induction d as [|[k' v'] d IH]; intros H; [reflexivity|].
  simpl in *. destruct (str_eqb k' k) eqn:E.
  - apply str_eqb_eq in E. elim H. now left.
  - rewrite IH; [reflexivity|]. intros Hin. apply H. now right.
Qed.

Lemma dict_set_keys {value} (d : dict value) k v :
  In k (map fst d) -> map fst (dict_set value d k v) = map fst d.
Proof.
  induction d as [|[k' v'] d IH]; intros H; [destruct H|].
  simpl in *. destruct (str_eqb k' k) eqn:E; [reflexivity|].
  simpl. rewrite IH; [reflexivity|]. destruct H as [H|H]; [|exact H].
  subst k'. assert (X : str_eqb k k = true) by now apply str_eqb_eq.
  congruence.
Qed.

Lemma dict_set_nodup {value} (d : dict value) k v :
  NoDup (map fst d) -> NoDup (map fst (dict_set value d k v)).
Proof.
  intros H. destruct (in_dec (list_eq_dec ascii_dec) k (map fst d)) as [Hin|Hin].
  - now rewrite dict_set_keys.
  - rewrite dict_set_fresh by exact Hin. rewrite map_app. simpl.
    apply NoDup_app; [exact H | repeat constructor; intros [] |].
    intros x Hx [<-|[]]. now apply Hin.
Qed.

Lemma dict_set_length {value} (d : dict value) k v :
  List.length (dict_set value d k v) <= S (List.length d).
Proof.
  induction d as [|[k' v'] d IH]; simpl; [lia|].
  destruct (str_eqb k' k); simpl; lia.
Qed.

Lemma dict_fold_nodup {value} (kvs : list (str * value)) (acc : dict value) :
  NoDup (map fst acc) ->
  NoDup (map fst (fold_left (fun d kv => dict_set value d (fst kv) (snd kv))
                    kvs acc)).
Proof.
  revert acc. induction kvs as [|kv kvs IH]; intros acc H; [exact H|].
  simpl. apply IH. now apply dict_set_nodup.
Qed.

Lemma dict_fold_length {value} (kvs : list (str * value)) (acc : dict value) :
  List.length (fold_left (fun d kv => dict_set value d (fst kv) (snd kv))
                 kvs acc)
  <= List.length acc + List.length kvs.
Proof.
  revert acc. induction kvs as [|kv kvs IH]; intros acc; simpl; [lia|].
  specialize (IH (dict_set value acc (fst kv) (snd kv))).
  assert (H := dict_set_length acc (fst kv) (snd kv)). lia.
Qed.

Lemma dict_fold_fresh {value} (kvs : list (str * value)) (acc : dict value) :
  NoDup (map fst (acc ++ kvs)) ->
  fold_left (fun d kv => dict_set value d (fst kv) (snd kv)) kvs acc
  = acc ++ kvs.
Proof.
  revert acc. induction kvs as [|[k v] kvs IH]; intros acc H.
  - simpl. now rewrite app_nil_r.
  - simpl. rewrite dict_set_fresh.
    + rewrite IH; rewrite <- app_assoc; [reflexivity | exact H].
    + rewrite map_app in H. simpl in H. apply NoDup_remove_2 in H.
      intros Hin. apply H. apply in_or_app. now left.
Qed.

Lemma combine_keys_nodup {value} (cols : list str) (r : list value) :
  NoDup cols -> NoDup (map fst (combine cols r)).
Proof.
  revert r. induction cols as [|c cols IH]; intros r H; [constructor|].
  destruct r as [|x r]; [constructor|]. simpl.
  inversion H as [|? ? Hc Hn]; subst. constructor; [|now apply IH].
  intros Hin. apply Hc. apply in_map_iff in Hin as ([k y] & E & Hin).
  simpl in E. subst k. now apply in_combine_l in Hin.
Qed.

(** X17.  The dictionary made of the column names and a row has distinct
    keys and no more entries than the row has cells; when the column names
    are distinct it is the names paired with the cells, in order.  (With a
    repeated column name the cells of the earlier columns of that name are
    overwritten.) *)
Theorem row_dictionary {value} (cols : list str) (r : row value) :
  NoDup (map fst (dict_zip value cols r))
  /\ List.length (dict_zip value cols r) <= List.length r
  /\ (NoDup cols -> dict_zip value cols r = combine cols r).
Proof.
  unfold dict_zip. split; [|split].
  - apply dict_fold_nodup. constructor.
  - etransitivity; [apply dict_fold_length|].
    simpl. rewrite length_combine. apply Nat.le_min_r.
  - intros H. rewrite dict_fold_fresh; [reflexivity|].
    simpl. now apply combine_keys_nodup.
Qed.

Lemma row_dictionary_witness :
  dict_zip Z ["id" : str; "name" : str] [1%Z; 2%Z]
  = combine ["id" : str; "name" : str] [1%Z; 2%Z].
Proof.
  apply (proj2 (proj2 (row_dictionary ["id" : str; "name" : str]
                         [1%Z; 2%Z]))).
  repeat constructor; simpl; intuition discriminate.
Defined.

(** ** The reasons, each exactly *)

Lemma gate_semicolon_iff c n :
  gate c n = Raise MULTIPLE_STATEMENTS
  <-> truthy c = true /\ existsb (Ascii.eqb ";") c = true.
Proof.
  unfold gate. destruct (truthy c); simpl negb; cbv iota.
  - destruct (existsb (Ascii.eqb ";") c); [now split|].
    split; [|intros [_ H]; discriminate H].
    destruct (existsb _ SYSTEM_TABLES); [discriminate|].
    destruct (find _ BLOCKED_KEYWORDS); [discriminate|].
    destruct (select_shape c || with_shape c); discriminate.
  - split; [discriminate | intros [H _]; discriminate H].
Qed.

Lemma gate_not_select_iff c n :
  gate c n = Raise NOT_A_SELECT
  <-> truthy c = true
      /\ existsb (Ascii.eqb ";") c = false
      /\ existsb (fun p => contains_word p c) SYSTEM_TABLES = false
      /\ existsb (fun k => contains_word k c) BLOCKED_KEYWORDS = false
      /\ select_shape c || with_shape c = false.
Proof.
  unfold gate. rewrite <- (find_none_existsb _ BLOCKED_KEYWORDS).
  destruct (truthy c); simpl negb; cbv iota;
    [|split; [discriminate | intros [H _]; discriminate H]].
  destruct (existsb (Ascii.eqb ";") c);
    [split; [discriminate | intros (_ & H & _); discriminate H]|].
  destruct (existsb _ SYSTEM_TABLES);
    [split; [discriminate | intros (_ & _ & H & _); discriminate H]|].
  destruct (find _ BLOCKED_KEYWORDS);
    [split; [discriminate | intros (_ & _ & _ & H & _); discriminate H]|].
  destruct (select_shape c || with_shape c);
    [split; [discriminate | intros (_ & _ & _ & _ & H); discriminate H]|].
  now repeat split.
Qed.

Lemma gate_keyword_iff c n token :
  gate c n = Raise (BLOCKED_KEYWORD token)
  <-> existsb (Ascii.eqb ";") c = false
      /\ existsb (fun p => contains_word p c) SYSTEM_TABLES = false
      /\ exists k,
           find (fun k => contains_word k c) BLOCKED_KEYWORDS = Some k
           /\ token = "\b" ++ k ++ "\b".
Proof.
  unfold gate. split.
  - destruct (negb (truthy c)); [discriminate|].
    destruct (existsb (Ascii.eqb ";") c); [discriminate|].
    destruct (existsb _ SYSTEM_TABLES); [discriminate|].
    destruct (find _ BLOCKED_KEYWORDS) as [k|].
    + intros H. injection H as <-.
      repeat split. exists k. now split.
    + destruct (select_shape c || with_shape c); discriminate.
  - intros (H1 & H2 & k & Hk & ->).
    assert (Ht : truthy c = true).
    { apply find_some in Hk as [Hin Hk].
      exact (contains_word_truthy k c (incl_keywords k Hin) Hk). }
    now rewrite Ht, H1, H2, Hk.
Qed.

(** X18.  Each of the other three messages tells which check failed, and
    only that: multiple-statements is raised exactly for an input with a
    semicolon; blocked-keyword with a token exactly for an input without
    semicolon and without system table whose first blocked keyword, in the
    declared order, is the one of the token; not-a-select exactly for an
    input that passes the four earlier checks and has neither start
    shape. *)
Theorem rejection_reasons_exact (sql : str) (max_rows : Z) :
  (basic_sanitize_and_enforce sql max_rows = Raise MULTIPLE_STATEMENTS
   <-> In ";"%char sql)
  /\ (forall token,
         basic_sanitize_and_enforce sql max_rows
         = Raise (BLOCKED_KEYWORD token)
         <-> existsb (Ascii.eqb ";") sql = false
             /\ existsb (fun p => contains_word p sql) SYSTEM_TABLES = false
             /\ exists k,
                  find (fun k => contains_word k sql) BLOCKED_KEYWORDS
                  = Some k
                  /\ token = "\b" ++ k ++ "\b")
  /\ (basic_sanitize_and_enforce sql max_rows = Raise NOT_A_SELECT
      <-> passes_earlier_checks sql = true
          /\ select_shape (strip sql) || with_shape (strip sql) = false).
Proof.
  rewrite sanitize_gate. split; [|split].
  - rewrite gate_semicolon_iff, semicolon_strip, existsb_In_char. split.
    + now intros [_ H].
    + intros H. split; [|exact H].
      apply (truthy_In _ ";"%char). now apply strip_keeps.
  - intros token.
    rewrite gate_keyword_iff, semicolon_strip, tables_strip, keywords_strip.
    reflexivity.
  - rewrite gate_not_select_iff, passes_earlier_strip. split.
    + intros (H1 & H2 & H3 & H4 & H5). now rewrite H1, H2, H3, H4.
    + intros [H H5]. apply andb_true_iff in H as [H H4].
      apply andb_true_iff in H as [H H3]. apply andb_true_iff in H as [H1 H2].
      apply negb_true_iff in H2, H3, H4. now repeat split.
Qed.

(** ** The generator's answer, stored and executed *)

Lemma nl_to_sql_trimmed {value time} (env : Environment value time)
    nl schema_hint raw :
  nl_to_sql env nl schema_hint = Return raw -> strip raw = raw.
Proof.
  unfold nl_to_sql. destruct (generate_content env _) as [text|e];
    [|discriminate].
  cbv zeta. destruct (startswith _ (strip text));
    intros H; injection H as <-; apply strip_idem.
Qed.

(** X19.  What the generator's answer becomes: [nl_to_sql] returns it
    without white space at the ends, so the query the gate returns for it is
    the text stored as generated_sql itself when that text has a LIMIT
    clause, and that text followed by " LIMIT " and the cap when it has
    none. *)
Theorem executed_is_stored_answer {value time}
    (env : Environment value time) (nl schema_hint raw sql : str)
    (max_rows : Z) :
  nl_to_sql env nl schema_hint = Return raw ->
  basic_sanitize_and_enforce raw max_rows = Return sql ->
  strip raw = raw
  /\ sql = if has_limit raw then raw
           else raw ++ " LIMIT " ++ str_of_int max_rows.
Proof.
  intros Hgen Hgate. assert (Hs := nl_to_sql_trimmed env nl schema_hint raw Hgen).
  split; [exact Hs|]. apply sanitize_return in Hgate. now rewrite Hs in Hgate.
Qed.

Lemma executed_is_stored_answer_witness :
  strip "SELECT 1" = "SELECT 1"
  /\ list_ascii_of_string "SELECT 1 LIMIT 10"
     = if has_limit "SELECT 1" then list_ascii_of_string "SELECT 1"
       else "SELECT 1" ++ " LIMIT " ++ str_of_int 10.
Proof.
  apply (executed_is_stored_answer (demo_env "  SELECT 1  ") "one" ""
           "SELECT 1" "SELECT 1 LIMIT 10" 10); reflexivity.
Defined.
